(** * Task Manager function plotter: the memory shaper of [plotter.c]

    A shallow embedding of the block list ([memoryBlock]), of the allocator
    calls the program makes ([malloc], [free]) and of the three functions
    that manage the list: [reallocMemory], [destroyMemory] and the part of
    [printGraph] that creates the list, drives it through a series of
    targets and tears it down.

    Conventions.
    - [size_t] is the 64-bit unsigned type of the x64 Windows ABI and
      [unsigned] is 32 bits wide; both are carried by [Z] and every
      arithmetic operation of the source is followed by its wrap-around.
    - A C [float] is carried by the rational it denotes ([Q]); the two
      integer-to-float conversions round to 24 significant bits, ties to
      even, as IEEE 754 single precision does.
    - The linked list is a Rocq list of blocks, the head of the list being
      the block [memory] points to; a block keeps the address of its own
      node so that the release of a node can be observed.
    - [malloc] always succeeds and returns an address never returned
      before.  The heap keeps a log of the allocator calls and of the
      entries into [reallocMemory]; [history] reads it in the order of the
      calls. *)

From Stdlib Require Import ZArith QArith Qround List Lia Bool Permutation.
Import ListNotations.

Local Open Scope Z_scope.

(** ** Machine integers *)

Definition SIZE_MAX_succ : Z := 2 ^ 64.
Definition UINT_MAX_succ : Z := 2 ^ 32.

(** Wrap-around of [size_t] and of [unsigned] arithmetic. *)
Definition wrap_size (x : Z) : Z := x mod SIZE_MAX_succ.
Definition wrap_uint (x : Z) : Z := x mod UINT_MAX_succ.

Definition is_size_t (x : Z) : Prop := 0 <= x < SIZE_MAX_succ.

(** [1024 * 1024] of the source. *)
Definition MiB : Z := 1024 * 1024.

(** ** Single-precision conversions *)

(** [(float)n] for a non-negative integer [n]: the nearest number with 24
    significant bits, ties to the even significand.  Below [2^24] every
    integer is representable. *)
Definition float_of_Z (n : Z) : Z :=
  if n <? 2 ^ 24 then n
  else
    let e := Z.log2 n - 23 in
    let q := n / 2 ^ e in
    let r := n mod 2 ^ e in
    let half := 2 ^ (e - 1) in
    if r <? half then q * 2 ^ e
    else if half <? r then (q + 1) * 2 ^ e
    else if Z.even q then q * 2 ^ e
    else (q + 1) * 2 ^ e.

(** [(float)delta / (1024 * 1024)]: the divisor is a power of two and the
    quotient is far from the subnormal range, so the division is exact. *)
Definition iterations_of (delta : Z) : Q :=
  Qmake (float_of_Z delta) 1048576.

(** [(unsigned)f] for a non-negative float: truncation; the conversion is
    undefined when the integral part does not fit the type. *)
Definition unsigned_of_float (f : Q) : option Z :=
  let t := Qfloor f in
  if t <? UINT_MAX_succ then Some t else None.

(** The span count of lines 92-96:
[[
    float iterations = (float)delta / (1024 * 1024);
    unsigned spans = (unsigned)iterations;
    if (iterations != spans) spans++;
]]
    In the comparison [spans] is converted to [float]. *)
Definition span_count (delta : Z) : option Z :=
  let iterations := iterations_of delta in
  match unsigned_of_float iterations with
  | None => None
  | Some spans =>
      if negb (Qeq_bool iterations (inject_Z (float_of_Z spans)))
      then Some (wrap_uint (spans + 1))
      else Some spans
  end.

(** ** The allocator *)

(** An address returned by [malloc]; [NULL] is [None] of [option ptr]. *)
Definition ptr := nat.

Inductive event : Type :=
| EvMalloc (p : ptr) (n : Z)           (* [malloc(n)] returned [p] *)
| EvFree (p : ptr)                     (* [free(p)] *)
| EvCall (totalSpace requested : Z).   (* entry into [reallocMemory] *)

(** [brk] is the next address [malloc] hands out; [log] holds the events,
    the most recent first. *)
Record heap : Type := mkHeap { brk : ptr; log : list event }.
Arguments EvMalloc p%_nat n%_Z.
Arguments EvFree p%_nat.
Arguments mkHeap brk%_nat log.

Definition malloc (n : Z) (h : heap) : ptr * heap :=
  (brk h, mkHeap (S (brk h)) (EvMalloc (brk h) n :: log h)).

Definition free (p : ptr) (h : heap) : heap :=
  mkHeap (brk h) (EvFree p :: log h).

Definition enter (totalSpace requested : Z) (h : heap) : heap :=
  mkHeap (brk h) (EvCall totalSpace requested :: log h).

(** The events in the order in which they happened. *)
Definition history (h : heap) : list event := rev (log h).

(** ** The block list *)

(** [struct s_block]; [next] is the tail of the Rocq list and [node] is the
    address of the structure itself. *)
Record memoryBlock : Type := mkBlock {
  node : ptr;
  sz : Z;
  mem : option ptr
}.
Arguments mkBlock node%_nat sz%_Z mem.

(** A list as seen through a [memoryBlock *]: [[]] is the null pointer. *)
Definition ledger := list memoryBlock.

(** [sizeof(memoryBlock)]: a [size_t] and two pointers. *)
Definition sizeof_memoryBlock : Z := 24.

(** What a run of the C code can be: a result, undefined behaviour, or a
    recursion cut off by the fuel of the model. *)
Inductive outcome (A : Type) : Type :=
| Done (a : A)
| Undefined
| OutOfFuel.
Arguments Done {A} a.
Arguments Undefined {A}.
Arguments OutOfFuel {A}.

(** [for (i = 0; i < n; i++) body]. *)
Fixpoint for_loop {A : Type} (n : nat) (body : A -> outcome A) (a : A)
  : outcome A :=
  match n with
  | O => Done a
  | S n' =>
      match body a with
      | Done a' => for_loop n' body a'
      | Undefined => Undefined
      | OutOfFuel => OutOfFuel
      end
  end.

(** ** [reallocMemory] *)

(** Lines 104-113, the growth by one span of [delta] bytes.  The test of
    line 104 has no [else]: lines 109-113 run in both cases. *)
Definition grow_span (memory : ledger) (delta : Z) (h : heap)
  : outcome (ledger * heap) :=
  match memory with
  | [] => Undefined
  | head :: rest =>
      let '(head1, h1) :=
        match mem head with
        | None =>
            let '(p, h') := malloc delta h in
            (mkBlock (node head) delta (Some p), h')
        | Some _ => (head, h)
        end in
      let '(a, h2) := malloc sizeof_memoryBlock h1 in
      let '(p, h3) := malloc delta h2 in
      Done (head1 :: mkBlock a delta (Some p) :: rest, h3)
  end.

(** Lines 119-150, the walk that gives [delta] bytes back.  [prev_null] is
    the test [prev == NULL]; [blocks] is the list from [block] on.  The
    result is the list from [block] on as the walk leaves it. *)
Fixpoint dealloc_walk (prev_null : bool) (blocks : list memoryBlock)
    (delta : Z) (h : heap) : list memoryBlock * heap :=
  match blocks with
  | [] => ([], h)
  | block :: rest =>
      if delta =? 0 then (blocks, h)
      else
        match mem block with
        | Some p =>
            if sz block <=? delta then
              let delta' := wrap_size (delta - sz block) in
              let h1 := free p h in
              if prev_null then
                let '(l, h2) := dealloc_walk false rest delta' h1 in
                (mkBlock (node block) 0 None :: l, h2)
              else
                dealloc_walk false rest delta' (free (node block) h1)
            else
              let h1 := free p h in
              let n := wrap_size (sz block - delta) in
              let '(q, h2) := malloc n h1 in
              (mkBlock (node block) n (Some q) :: rest, h2)
        | None =>
            let '(l, h') := dealloc_walk false rest delta h in
            (block :: l, h')
        end
  end.

(** Lines 83-154.  [fuel] bounds the depth of the recursion of line 99. *)
Fixpoint reallocMemory (fuel : nat) (memory : ledger)
    (totalSpace requested : Z) (h : heap) : outcome (ledger * heap) :=
  match fuel with
  | O => OutOfFuel
  | S fuel' =>
      let h0 := enter totalSpace requested h in
      if totalSpace <? requested then
        let delta := wrap_size (requested - totalSpace) in
        if MiB <? delta then
          match span_count delta with
          | None => Undefined
          | Some spans =>
              for_loop (Z.to_nat spans)
                (fun s : ledger * heap =>
                   reallocMemory fuel' (fst s) totalSpace
                     (wrap_size (totalSpace + delta / spans)) (snd s))
                (memory, h0)
          end
        else grow_span memory delta h0
      else if requested <? totalSpace then
        Done (dealloc_walk true memory (wrap_size (totalSpace - requested)) h0)
      else Done (memory, h0)
  end.

(** ** [destroyMemory] and [printGraph] *)

(** The loop of line 69 once [block] and [memory] are set: [rest] is the
    list [memory] points to. *)
Fixpoint destroy_loop (block : memoryBlock) (rest : list memoryBlock)
    (h : heap) : heap :=
  match rest with
  | [] => h
  | m :: rest' =>
      let h1 := match mem block with
                | Some p => free p h
                | None => h
                end in
      destroy_loop m rest' (free (node block) h1)
  end.

Definition destroyMemory (memory : ledger) (h : heap) : outcome heap :=
  match memory with
  | [] => Undefined
  | block :: rest => Done (destroy_loop block rest h)
  end.

(** Lines 170-175: the list [printGraph] starts from. *)
Definition printGraph_init (h : heap) : ledger * heap :=
  let '(a, h1) := malloc sizeof_memoryBlock h in
  ([mkBlock a 0 None], h1).

(** Lines 177-186.  The values [mem] computed from the samples are taken
    as the list [targets]; [totMem] is the target of the step before. *)
Fixpoint printGraph_loop (fuel : nat) (targets : list Z) (memory : ledger)
    (totMem : Z) (h : heap) : outcome (ledger * heap) :=
  match targets with
  | [] => Done (memory, h)
  | m :: targets' =>
      match reallocMemory fuel memory totMem m h with
      | Done (memory', h') => printGraph_loop fuel targets' memory' m h'
      | Undefined => Undefined
      | OutOfFuel => OutOfFuel
      end
  end.

(** Lines 188-189: [destroyMemory(memory); free(memory);] where [memory]
    still holds the address of the head node. *)
Definition printGraph_teardown (memory : ledger) (h : heap) : outcome heap :=
  match memory with
  | [] => Undefined
  | head :: _ =>
      match destroyMemory memory h with
      | Done h1 => Done (free (node head) h1)
      | Undefined => Undefined
      | OutOfFuel => OutOfFuel
      end
  end.

Definition empty_heap : heap := mkHeap O [].

(** ** Observations on a list *)

(** The sum of the sizes of the blocks whose handle is set. *)
Fixpoint live_total (l : ledger) : Z :=
  match l with
  | [] => 0
  | b :: l' =>
      match mem b with
      | Some _ => sz b + live_total l'
      | None => live_total l'
      end
  end.

(** The sum of all sizes. *)
Fixpoint total_size (l : ledger) : Z :=
  match l with
  | [] => 0
  | b :: l' => sz b + total_size l'
  end.

Definition is_live (b : memoryBlock) : bool :=
  match mem b with Some _ => true | None => false end.

(** The handles that are set, in list order. *)
Fixpoint handles (l : ledger) : list ptr :=
  match l with
  | [] => []
  | b :: l' =>
      match mem b with
      | Some p => p :: handles l'
      | None => handles l'
      end
  end.

(** The addresses released by [free], in the order of the calls. *)
Fixpoint freed_of (es : list event) : list ptr :=
  match es with
  | [] => []
  | EvFree p :: es' => p :: freed_of es'
  | _ :: es' => freed_of es'
  end.

Definition freed (h : heap) : list ptr := freed_of (history h).

(** The entries into [reallocMemory], with their arguments. *)
Fixpoint calls_of (es : list event) : list (Z * Z) :=
  match es with
  | [] => []
  | EvCall t r :: es' => (t, r) :: calls_of es'
  | _ :: es' => calls_of es'
  end.

Definition calls (h : heap) : list (Z * Z) := calls_of (history h).

(** The entries into [reallocMemory] made between two heaps, the outermost
    one left out: the recursive calls of line 99. *)
Definition sub_steps (before after : heap) : nat :=
  (length (calls after) - length (calls before) - 1)%nat.

(** Every address a list holds: the nodes and the handles that are set. *)
Fixpoint pointers (l : ledger) : list ptr :=
  match l with
  | [] => []
  | b :: l' =>
      match mem b with
      | Some p => node b :: p :: pointers l'
      | None => node b :: pointers l'
      end
  end.

(** ** Whole runs *)

(** A client that calls [reallocMemory] again and again on one list, with
    [(totalSpace, requested)] pairs of its choice. *)
Fixpoint run_calls (fuel : nat) (cs : list (Z * Z)) (memory : ledger)
    (h : heap) : outcome (ledger * heap) :=
  match cs with
  | [] => Done (memory, h)
  | (t, r) :: cs' =>
      match reallocMemory fuel memory t r h with
      | Done (memory', h') => run_calls fuel cs' memory' h'
      | Undefined => Undefined
      | OutOfFuel => OutOfFuel
      end
  end.

(** [printGraph] on the targets its samples give, from an empty heap on. *)
Definition printGraph (fuel : nat) (targets : list Z) : outcome heap :=
  let '(memory, h) := printGraph_init empty_heap in
  match printGraph_loop fuel targets memory 0 h with
  | Done (memory', h') => printGraph_teardown memory' h'
  | Undefined => Undefined
  | OutOfFuel => OutOfFuel
  end.

(** ** Sample inputs *)

(** Three blocks of 3, 5 and 2 bytes. *)
Definition sample_three : ledger :=
  [mkBlock 0 3 (Some 1%nat); mkBlock 2 5 (Some 3%nat);
   mkBlock 4 2 (Some 5%nat)].

(** A head of 3 bytes, a block without handle and a block of 5 bytes. *)
Definition sample_gap : ledger :=
  [mkBlock 0 3 (Some 1%nat); mkBlock 2 0 None; mkBlock 4 5 (Some 5%nat)].

(** A heap whose first six addresses are taken. *)
Definition sample_heap : heap := mkHeap 6 [].

(** A shrink, a growth of two spans and a shrink to nothing. *)
Definition sample_calls : list (Z * Z) :=
  [(8, 3); (3, 2097155); (2097155, 0)].

(** ** Predicates of the statements *)

(** [ceil(a / b)] on integers. *)
Definition ceil_div (a b : Z) : Z :=
  if a mod b =? 0 then a / b else a / b + 1.

(** The deltas below this bound have a quotient by [MiB] that, once
    rounded to single precision, fits [unsigned]. *)
Definition SPAN_DOMAIN : Z := 2 ^ 52 - 2 ^ 27.

(** The arguments of one call: two [size_t] values whose growth, if any,
    has a defined span count. *)
Definition call_ok (c : Z * Z) : Prop :=
  is_size_t (fst c) /\ is_size_t (snd c) /\ snd c - fst c < SPAN_DOMAIN.

(** The arguments of one call as their type has them. *)
Definition size_args (c : Z * Z) : Prop :=
  is_size_t (fst c) /\ is_size_t (snd c).

(** Every size is a [size_t] value. *)
Definition sizes_ok (l : ledger) : Prop :=
  Forall (fun b => is_size_t (sz b)) l.

(** A block has a null handle exactly when its size is zero. *)
Definition tidy_block (b : memoryBlock) : Prop :=
  mem b = None <-> sz b = 0.

Definition tidy (l : ledger) : Prop := Forall tidy_block l.

(** The addresses of a list are pairwise distinct and were all handed out
    by [malloc] already. *)
Definition separated (l : ledger) (h : heap) : Prop :=
  NoDup (pointers l) /\ Forall (fun p => (p < brk h)%nat) (pointers l).

(** What is left of a list once every handle has been given back: the head
    stays as a node without handle, the other blocks that had one are gone. *)
Definition swept (l : ledger) : ledger :=
  match l with
  | [] => []
  | head :: rest =>
      (if is_live head then mkBlock (node head) 0 None else head)
        :: filter (fun b => negb (is_live b)) rest
  end.

(** The addresses a sweep gives back, in order: the handle of the head,
    then handle and node of every other block that has a handle. *)
Fixpoint swept_rest (l : list memoryBlock) : list ptr :=
  match l with
  | [] => []
  | b :: l' =>
      match mem b with
      | Some p => p :: node b :: swept_rest l'
      | None => swept_rest l'
      end
  end.

Definition swept_ptrs (l : ledger) : list ptr :=
  match l with
  | [] => []
  | head :: rest =>
      match mem head with
      | Some p => p :: swept_rest rest
      | None => swept_rest rest
      end
  end.

(** ** The atomic actions of the shaper *)

(** One entry into [reallocMemory], one span of growth, or one walk that
    gives memory back.  Every call of [reallocMemory] that returns is a
    sequence of these. *)
Inductive shaper_step : ledger * heap -> ledger * heap -> Prop :=
| step_enter l t r h :
    shaper_step (l, h) (l, enter t r h)
| step_grow l d h s' :
    0 < d <= MiB -> grow_span l d h = Done s' ->
    shaper_step (l, h) s'
| step_shrink l d h :
    0 < d < SIZE_MAX_succ ->
    shaper_step (l, h) (dealloc_walk true l d h).

Inductive reaches : ledger * heap -> ledger * heap -> Prop :=
| reaches_refl s : reaches s s
| reaches_step s s' s'' :
    shaper_step s s' -> reaches s' s'' -> reaches s s''.

(** [free] on each address of a list, in order. *)
Definition free_all (ps : list ptr) (h : heap) : heap :=
  fold_left (fun h p => free p h) ps h.

(** The list still starts with the node at [a], its addresses are apart,
    and [a] has been released only if it is among [F]. *)
Definition head_kept (a : ptr) (F : list ptr) (s : ledger * heap) : Prop :=
  (exists head rest, fst s = head :: rest /\ node head = a) /\
  separated (fst s) (snd s) /\
  (In a (freed (snd s)) -> In a F).

(** Sizes are in range and handles are in step with sizes. *)
Definition well_kept (s : ledger * heap) : Prop :=
  sizes_ok (fst s) /\ tidy (fst s).

(** The calls of [printGraph]'s loop: each one starts from the target of
    the one before. *)
Fixpoint chained (totMem : Z) (targets : list Z) : list (Z * Z) :=
  match targets with
  | [] => []
  | m :: targets' => (totMem, m) :: chained m targets'
  end.

(** The list and heap [printGraph] starts from. *)
Definition fresh : ledger * heap := printGraph_init empty_heap.

(** ** Further predicates *)

(** What [destroyMemory] gives back for one block: the handle, if set,
    then the node. *)
Definition block_release (b : memoryBlock) : list ptr :=
  match mem b with
  | Some p => [p; node b]
  | None => [node b]
  end.

(** How many times an address occurs in a list. *)
Definition occ (x : ptr) (l : list ptr) : nat := count_occ Nat.eq_dec l x.

(** No block is larger than the ceiling and no [malloc] asked for more. *)
Definition capped (s : ledger * heap) : Prop :=
  Forall (fun b => 0 <= sz b <= MiB) (fst s) /\
  (forall p n, In (EvMalloc p n) (log (snd s)) -> n <= MiB).

(** The addresses handed out are those the list holds and those given
    back, each one once. *)
Definition heap_exact (s : ledger * heap) : Prop :=
  Permutation (pointers (fst s) ++ freed (snd s)) (seq 0 (brk (snd s))).

(** The heap as counts: an address is in the list or among the freed ones
    as often as it was handed out. *)
Definition balanced (s : ledger * heap) : Prop :=
  forall x,
    (occ x (pointers (fst s)) + occ x (freed (snd s)))%nat
      = occ x (seq 0 (brk (snd s))).

(** * Proof steps *)

(** Bounds that follow from a value being a [size_t]. *)
Ltac size_lia := unfold is_size_t in *; lia.

(** Bounds on literals. *)
Ltac literal_lia :=
  cbn; unfold is_size_t, SIZE_MAX_succ, SPAN_DOMAIN, MiB; cbn; lia.

(** * Single-precision conversions *)

Lemma float_of_Z_small n : n < 2 ^ 24 -> float_of_Z n = n.
Proof.
  intros H. unfold float_of_Z.
  destruct (Z.ltb_spec n (2 ^ 24)); [reflexivity | lia].
Qed.

(** Above [2^24] the conversion keeps 24 bits: the result is a multiple of
    the unit in the last place [2^e], and is at most half a unit away. *)
Lemma float_of_Z_large n :
  2 ^ 24 <= n ->
  exists q e,
    1 <= e /\ e = Z.log2 n - 23 /\
    float_of_Z n = q * 2 ^ e /\
    2 ^ 23 <= q <= 2 ^ 24 /\
    2 * n - 2 ^ e <= 2 * float_of_Z n <= 2 * n + 2 ^ e.
Proof.
  intros Hn.
  assert (Hpos : 0 < n) by (change (2 ^ 24) with 16777216 in Hn; lia).
  assert (Hlog : 24 <= Z.log2 n) by (apply Z.log2_le_pow2; lia).
  destruct (Z.log2_spec n Hpos) as [Hlo Hhi].
  set (e := Z.log2 n - 23) in *.
  assert (He : 1 <= e) by (unfold e; lia).
  assert (Hsplit : 2 ^ Z.log2 n = 2 ^ 23 * 2 ^ e).
  { rewrite <- Z.pow_add_r by lia. f_equal. unfold e. lia. }
  assert (Hsucc : 2 ^ Z.succ (Z.log2 n) = 2 ^ 24 * 2 ^ e).
  { rewrite <- Z.pow_add_r by lia. f_equal. unfold e. lia. }
  assert (Hhalf : 2 ^ e = 2 * 2 ^ (e - 1)).
  { replace e with (1 + (e - 1)) at 1 by lia.
    rewrite Z.pow_add_r by lia. reflexivity. }
  assert (Hu : 0 < 2 ^ (e - 1)) by (apply Z.pow_pos_nonneg; lia).
  rewrite Hsplit in Hlo. rewrite Hsucc in Hhi.
  unfold float_of_Z. fold e.
  destruct (Z.ltb_spec n (2 ^ 24)) as [Hc | _]; [lia |].
  pose proof (Z.div_mod n (2 ^ e) ltac:(lia)) as Hdm.
  pose proof (Z.mod_pos_bound n (2 ^ e) ltac:(lia)) as Hr.
  set (q := n / 2 ^ e) in *. set (r := n mod 2 ^ e) in *.
  set (u := 2 ^ e) in *. set (v := 2 ^ (e - 1)) in *.
  change (2 ^ 23) with 8388608 in *. change (2 ^ 24) with 16777216 in *.
  assert (Hq : 8388608 <= q < 16777216) by nia.
  destruct (Z.ltb_spec r v).
  { exists q, e. repeat split; try lia. }
  destruct (Z.ltb_spec v r).
  { exists (q + 1), e. repeat split; try lia. }
  destruct (Z.even q).
  { exists q, e. repeat split; try lia. }
  exists (q + 1), e. repeat split; try lia.
Qed.

(** A number with at most 24 significant bits is its own conversion. *)
Lemma float_of_Z_repr q k :
  0 <= q <= 2 ^ 24 -> 0 <= k -> float_of_Z (q * 2 ^ k) = q * 2 ^ k.
Proof.
  intros Hq Hk.
  assert (Hp : 0 < 2 ^ k) by (apply Z.pow_pos_nonneg; lia).
  destruct (Z.lt_ge_cases (q * 2 ^ k) (2 ^ 24)) as [Hs | Hl].
  { apply float_of_Z_small. exact Hs. }
  set (n := q * 2 ^ k) in *.
  assert (Hpos : 0 < n) by (change (2 ^ 24) with 16777216 in Hl; lia).
  assert (Hlog : 24 <= Z.log2 n) by (apply Z.log2_le_pow2; lia).
  destruct (Z.log2_spec n Hpos) as [Hlo Hhi].
  unfold float_of_Z.
  destruct (Z.ltb_spec n (2 ^ 24)) as [Hc | _]; [lia |].
  set (e := Z.log2 n - 23).
  assert (He : 1 <= e) by (unfold e; lia).
  assert (Hu : 0 < 2 ^ (e - 1)) by (apply Z.pow_pos_nonneg; lia).
  assert (Hue : 0 < 2 ^ e) by (apply Z.pow_pos_nonneg; lia).
  assert (Hdiv : exists c, n = c * 2 ^ e).
  { destruct (Z.eq_dec q (2 ^ 24)) as [Heq | Hne].
    - assert (Hn : n = 2 ^ (24 + k)).
      { unfold n. rewrite Heq, Z.pow_add_r by lia. reflexivity. }
      assert (Z.log2 n = 24 + k) by (rewrite Hn; apply Z.log2_pow2; lia).
      exists (2 ^ 23). rewrite <- Z.pow_add_r by lia.
      rewrite Hn. f_equal. unfold e. lia.
    - assert (Hlt : n < 2 ^ (24 + k)).
      { rewrite Z.pow_add_r by lia. unfold n. nia. }
      assert (Z.log2 n < 24 + k) by (apply Z.log2_lt_pow2; lia).
      exists (q * 2 ^ (k - e)). unfold n.
      rewrite <- Z.mul_assoc, <- Z.pow_add_r by (unfold e; lia).
      do 2 f_equal. lia. }
  destruct Hdiv as [c Hc].
  assert (Hr : n mod 2 ^ e = 0) by (rewrite Hc; apply Z.mod_mul; lia).
  assert (Hqd : n / 2 ^ e = c) by (rewrite Hc; apply Z.div_mul; lia).
  rewrite Hr, Hqd.
  destruct (Z.ltb_spec 0 (2 ^ (e - 1))); [lia | lia].
Qed.

Lemma float_of_Z_nonneg n : 0 <= n -> 0 <= float_of_Z n.
Proof.
  intros H. destruct (Z.lt_ge_cases n (2 ^ 24)) as [Hs | Hl].
  - rewrite float_of_Z_small; assumption.
  - destruct (float_of_Z_large n Hl) as (q & e & He & _ & HF & Hq & _).
    rewrite HF. assert (0 < 2 ^ e) by (apply Z.pow_pos_nonneg; lia).
    change (2 ^ 23) with 8388608 in Hq. nia.
Qed.

(** The integral part of [iterations] is representable, and [iterations]
    has a fractional part only when it is below [2^24]. *)
Lemma float_quotient_repr delta :
  0 <= delta ->
  float_of_Z (float_of_Z delta / MiB) = float_of_Z delta / MiB /\
  (float_of_Z delta mod MiB <> 0 -> float_of_Z delta / MiB < 2 ^ 24).
Proof.
  intros H0. change MiB with 1048576.
  destruct (Z.lt_ge_cases delta (2 ^ 24)) as [Hs | Hl].
  - rewrite (float_of_Z_small delta Hs).
    assert (delta / 1048576 < 2 ^ 24).
    { apply Z.div_lt_upper_bound; [lia |].
      change (2 ^ 24) with 16777216 in *. lia. }
    split; [apply float_of_Z_small; assumption | intros _; assumption].
  - destruct (float_of_Z_large delta Hl) as (q & e & He & _ & HF & Hq & _).
    rewrite HF.
    destruct (Z.lt_ge_cases e 20) as [Hlt | Hge].
    + assert (Hp : 0 < 2 ^ e) by (apply Z.pow_pos_nonneg; lia).
      assert (Hle : 2 ^ e <= 2 ^ 19) by (apply Z.pow_le_mono_r; lia).
      assert (Hb : q * 2 ^ e / 1048576 < 2 ^ 24).
      { apply Z.div_lt_upper_bound; [lia |].
        change (2 ^ 24) with 16777216 in *. change (2 ^ 19) with 524288 in *.
        nia. }
      split; [apply float_of_Z_small; assumption | intros _; assumption].
    + assert (Hsp : 2 ^ e = 2 ^ (e - 20) * 1048576).
      { change 1048576 with (2 ^ 20). rewrite <- Z.pow_add_r by lia.
        f_equal. lia. }
      rewrite Hsp, Z.mul_assoc, Z.div_mul, Z.mod_mul by lia.
      split; [| intros Hne; contradiction Hne; reflexivity].
      apply float_of_Z_repr; [| lia].
      change (2 ^ 23) with 8388608 in Hq. lia.
Qed.

Lemma span_count_defined delta :
  0 <= delta ->
  float_of_Z delta / MiB < UINT_MAX_succ ->
  span_count delta = Some (ceil_div (float_of_Z delta) MiB).
Proof.
  intros H0 Hfit.
  destruct (float_quotient_repr delta H0) as [Hrep Hfrac].
  pose proof (float_of_Z_nonneg delta H0) as HF0.
  unfold span_count, iterations_of, unsigned_of_float, ceil_div.
  change (Qfloor (float_of_Z delta # 1048576))
    with (float_of_Z delta / MiB).
  destruct (Z.ltb_spec (float_of_Z delta / MiB) UINT_MAX_succ) as [_ | Hc];
    [| lia].
  rewrite Hrep.
  pose proof (Z.div_mod (float_of_Z delta) MiB ltac:(discriminate)) as Hdm.
  destruct (Qeq_bool _ _) eqn:E; cbn [negb].
  - apply Qeq_bool_iff in E. unfold Qeq in E. cbn in E.
    change 1048576 with MiB in E.
    destruct (Z.eqb_spec (float_of_Z delta mod MiB) 0) as [_ | Hne];
      [reflexivity | lia].
  - destruct (Z.eqb_spec (float_of_Z delta mod MiB) 0) as [Hz | Hne].
    + exfalso. assert (Hq : Qeq_bool (float_of_Z delta # 1048576)
                     (inject_Z (float_of_Z delta / MiB)) = true).
      { apply Qeq_bool_iff. unfold Qeq. cbn. change 1048576 with MiB. lia. }
      congruence.
    + f_equal. unfold wrap_uint, UINT_MAX_succ. apply Z.mod_small.
      specialize (Hfrac Hne). change (2 ^ 24) with 16777216 in Hfrac.
      assert (0 <= float_of_Z delta / MiB) by (apply Z.div_pos; [lia | reflexivity]).
      change (2 ^ 32) with 4294967296. lia.
Qed.

Lemma span_count_undefined delta :
  UINT_MAX_succ <= float_of_Z delta / MiB -> span_count delta = None.
Proof.
  intros H. unfold span_count, iterations_of, unsigned_of_float.
  change (Qfloor (float_of_Z delta # 1048576))
    with (float_of_Z delta / MiB).
  destruct (Z.ltb_spec (float_of_Z delta / MiB) UINT_MAX_succ); [lia | reflexivity].
Qed.

Lemma ceil_div_spec a b :
  0 < b -> a <= ceil_div a b * b < a + b.
Proof.
  intros Hb. unfold ceil_div.
  pose proof (Z.div_mod a b ltac:(lia)) as Hdm.
  pose proof (Z.mod_pos_bound a b Hb) as Hr.
  destruct (Z.eqb_spec (a mod b) 0); nia.
Qed.

Lemma span_count_inv delta s :
  0 <= delta ->
  span_count delta = Some s ->
  float_of_Z delta / MiB < UINT_MAX_succ /\
  s = ceil_div (float_of_Z delta) MiB.
Proof.
  intros H0 Hs.
  destruct (Z.lt_ge_cases (float_of_Z delta / MiB) UINT_MAX_succ) as [Hlt | Hge].
  - split; [assumption |].
    rewrite (span_count_defined delta H0 Hlt) in Hs. congruence.
  - rewrite (span_count_undefined delta Hge) in Hs. discriminate.
Qed.

(** What the split of lines 91-99 relies on: at least two spans, none of
    them empty and none above the ceiling. *)
Lemma span_count_bounds delta s :
  MiB < delta ->
  span_count delta = Some s ->
  2 <= s < UINT_MAX_succ /\ 1 <= delta / s <= MiB /\ delta / s < delta.
Proof.
  intros Hd Hs.
  assert (H0 : 0 <= delta) by (unfold MiB in Hd; lia).
  destruct (span_count_inv delta s H0 Hs) as [Hfit ->].
  pose proof (ceil_div_spec (float_of_Z delta) MiB ltac:(reflexivity)) as Hc.
  pose proof (Z.div_mod (float_of_Z delta) MiB ltac:(discriminate)) as Hdm.
  pose proof (Z.mod_pos_bound (float_of_Z delta) MiB ltac:(reflexivity)) as Hr.
  set (s := ceil_div (float_of_Z delta) MiB) in *.
  assert (Hsle : s <= float_of_Z delta / MiB + 1).
  { unfold s, ceil_div. destruct (Z.eqb_spec (float_of_Z delta mod MiB) 0); lia. }
  unfold UINT_MAX_succ in *. change (2 ^ 32) with 4294967296 in *.
  unfold MiB in *. change (1024 * 1024) with 1048576 in *.
  assert (Hkey : 2 <= s /\ s <= delta /\ delta < s * 1048577).
  { destruct (Z.lt_ge_cases delta (2 ^ 24)) as [Hsm | Hl].
    - rewrite (float_of_Z_small delta Hsm) in *.
      change (2 ^ 24) with 16777216 in Hsm. lia.
    - destruct (float_of_Z_large delta Hl)
        as (q & e & He & _ & HF & Hq & Herr).
      assert (Hp : 2 <= 2 ^ e).
      { change 2 with (2 ^ 1) at 1. apply Z.pow_le_mono_r; lia. }
      set (u := 2 ^ e) in *. set (F := float_of_Z delta) in *.
      change (2 ^ 23) with 8388608 in *. change (2 ^ 24) with 16777216 in *.
      nia. }
  destruct Hkey as (H2 & Hle & Hlt).
  assert (1 <= delta / s) by (apply Z.div_le_lower_bound; lia).
  assert (delta / s < 1048577) by (apply Z.div_lt_upper_bound; lia).
  assert (delta / s < delta) by (apply Z.div_lt; lia).
  assert (s < 4294967296).
  { destruct (Z.eq_dec s 4294967296) as [E | E]; [| lia].
    exfalso. unfold s, ceil_div in E.
    destruct (float_quotient_repr delta H0) as [_ Hfr].
    change MiB with 1048576 in Hfr. change (2 ^ 24) with 16777216 in Hfr.
    destruct (Z.eqb_spec (float_of_Z delta mod 1048576) 0); lia. }
  lia.
Qed.

Lemma span_domain_fits delta :
  0 <= delta < SPAN_DOMAIN -> float_of_Z delta / MiB < UINT_MAX_succ.
Proof.
  intros [H0 Hd]. unfold SPAN_DOMAIN, UINT_MAX_succ, MiB in *.
  change (1024 * 1024) with 1048576.
  apply Z.div_lt_upper_bound; [lia |].
  destruct (Z.lt_ge_cases delta (2 ^ 24)) as [Hs | Hl].
  - rewrite (float_of_Z_small delta Hs).
    change (2 ^ 24) with 16777216 in Hs. change (2 ^ 32) with 4294967296. lia.
  - destruct (float_of_Z_large delta Hl) as (q & e & He & Hlog & _ & _ & Herr).
    assert (Z.log2 delta < 52).
    { apply Z.log2_lt_pow2; [change (2 ^ 24) with 16777216 in Hl; lia |].
      change (2 ^ 52) with 4503599627370496 in *.
      change (2 ^ 27) with 134217728 in *. lia. }
    assert (Hu : 2 ^ e <= 2 ^ 28) by (apply Z.pow_le_mono_r; lia).
    change (2 ^ 52) with 4503599627370496 in *.
    change (2 ^ 27) with 134217728 in *. change (2 ^ 28) with 268435456 in *.
    change (2 ^ 32) with 4294967296. lia.
Qed.

Lemma span_count_in_domain delta :
  MiB < delta < SPAN_DOMAIN ->
  exists s, span_count delta = Some s /\
            s = ceil_div (float_of_Z delta) MiB /\
            2 <= s < UINT_MAX_succ /\ 1 <= delta / s <= MiB.
Proof.
  intros [Hlo Hhi].
  assert (H0 : 0 <= delta) by (unfold MiB in Hlo; lia).
  pose proof (span_count_defined delta H0 (span_domain_fits delta (conj H0 Hhi)))
    as Hs.
  exists (ceil_div (float_of_Z delta) MiB).
  destruct (span_count_bounds delta _ Hlo Hs) as (A & B & _).
  repeat split; try assumption; lia.
Qed.

(** * The structure of a call *)

Lemma wrap_size_id x : is_size_t x -> wrap_size x = x.
Proof. intros H. apply Z.mod_small. exact H. Qed.

Lemma wrap_size_range x : is_size_t (wrap_size x).
Proof. apply Z.mod_pos_bound. reflexivity. Qed.

Lemma reallocMemory_S fuel memory totalSpace requested h :
  reallocMemory (S fuel) memory totalSpace requested h =
  let h0 := enter totalSpace requested h in
  if totalSpace <? requested then
    let delta := wrap_size (requested - totalSpace) in
    if MiB <? delta then
      match span_count delta with
      | None => Undefined
      | Some spans =>
          for_loop (Z.to_nat spans)
            (fun s : ledger * heap =>
               reallocMemory fuel (fst s) totalSpace
                 (wrap_size (totalSpace + delta / spans)) (snd s))
            (memory, h0)
      end
    else grow_span memory delta h0
  else if requested <? totalSpace then
    Done (dealloc_walk true memory (wrap_size (totalSpace - requested)) h0)
  else Done (memory, h0).
Proof. reflexivity. Qed.

Lemma grow_span_cons head rest delta h :
  grow_span (head :: rest) delta h =
  Done
    (match mem head with
     | None =>
         ([mkBlock (node head) delta (Some (brk h));
           mkBlock (S (brk h)) delta (Some (S (S (brk h))))] ++ rest,
          mkHeap (S (S (S (brk h))))
            (EvMalloc (S (S (brk h))) delta
               :: EvMalloc (S (brk h)) sizeof_memoryBlock
               :: EvMalloc (brk h) delta :: log h))
     | Some _ =>
         ([head; mkBlock (brk h) delta (Some (S (brk h)))] ++ rest,
          mkHeap (S (S (brk h)))
            (EvMalloc (S (brk h)) delta
               :: EvMalloc (brk h) sizeof_memoryBlock :: log h))
     end).
Proof. unfold grow_span. destruct (mem head); reflexivity. Qed.

(** A call that grows by at most one span is that span. *)
Lemma reallocMemory_grow_one fuel memory t r h :
  is_size_t t -> is_size_t r -> 0 < r - t <= MiB ->
  reallocMemory (S fuel) memory t r h = grow_span memory (r - t) (enter t r h).
Proof.
  intros Ht Hr Hd. rewrite reallocMemory_S. cbv zeta.
  destruct (Z.ltb_spec t r); [| lia].
  rewrite wrap_size_id by size_lia.
  destruct (Z.ltb_spec MiB (r - t)); [lia | reflexivity].
Qed.

Lemma reallocMemory_shrink fuel memory t r h :
  is_size_t t -> is_size_t r -> r < t ->
  reallocMemory (S fuel) memory t r h =
  Done (dealloc_walk true memory (t - r) (enter t r h)).
Proof.
  intros Ht Hr Hd. rewrite reallocMemory_S. cbv zeta.
  destruct (Z.ltb_spec t r); [lia |].
  destruct (Z.ltb_spec r t); [| lia].
  rewrite wrap_size_id by size_lia. reflexivity.
Qed.

Lemma reallocMemory_same fuel memory t h :
  reallocMemory (S fuel) memory t t h = Done (memory, enter t t h).
Proof.
  rewrite reallocMemory_S. cbv zeta. rewrite Z.ltb_irrefl. reflexivity.
Qed.

(** A call that grows by more than one span runs [spans] growths of
    [delta / spans] bytes, none of which is split again. *)
Lemma reallocMemory_grow_split fuel memory t r h :
  is_size_t t -> is_size_t r -> MiB < r - t < SPAN_DOMAIN ->
  exists s,
    span_count (r - t) = Some s /\
    reallocMemory (S (S fuel)) memory t r h =
    for_loop (Z.to_nat s)
      (fun st => grow_span (fst st) ((r - t) / s)
                   (enter t (t + (r - t) / s) (snd st)))
      (memory, enter t r h).
Proof.
  intros Ht Hr Hd.
  destruct (span_count_in_domain (r - t) Hd) as (s & Hs & _ & Hs2 & Hsub).
  exists s. split; [exact Hs |].
  rewrite reallocMemory_S. cbv zeta.
  destruct (Z.ltb_spec t r); [| unfold MiB in Hd; lia].
  rewrite wrap_size_id by size_lia.
  destruct (Z.ltb_spec MiB (r - t)); [| lia].
  rewrite Hs.
  assert (Hle : (r - t) / s <= r - t).
  { apply Z.div_le_upper_bound; [lia |]. unfold MiB in Hd. nia. }
  assert (Hw : wrap_size (t + (r - t) / s) = t + (r - t) / s).
  { apply wrap_size_id. unfold is_size_t in *. lia. }
  rewrite Hw.
  generalize (memory, enter t r h). generalize (Z.to_nat s).
  induction n as [| n IH]; intros st; [reflexivity |].
  cbn [for_loop].
  rewrite reallocMemory_grow_one
    by size_lia.
  replace (t + (r - t) / s - t) with ((r - t) / s) by lia.
  destruct (grow_span _ _ _); [apply IH | reflexivity | reflexivity].
Qed.

(** * Calls as sequences of atomic actions *)

Lemma reaches_one s s' : shaper_step s s' -> reaches s s'.
Proof. intros H. eapply reaches_step; [exact H | apply reaches_refl]. Qed.

Lemma reaches_trans s s' s'' : reaches s s' -> reaches s' s'' -> reaches s s''.
Proof.
  induction 1 as [| a b c Hab Hbc IH]; intros H; [exact H |].
  eapply reaches_step; [exact Hab | apply IH, H].
Qed.

(** An invariant of the atomic actions is an invariant of [reaches]. *)
Lemma reaches_invariant (P : ledger * heap -> Prop) :
  (forall s s', shaper_step s s' -> P s -> P s') ->
  forall s s', reaches s s' -> P s -> P s'.
Proof.
  intros Hstep s s' H. induction H as [| a b c Hab _ IH]; intros HP.
  - exact HP.
  - apply IH. eapply Hstep; eassumption.
Qed.

Lemma dealloc_walk_head b rest delta h :
  exists b' rest' h',
    dealloc_walk true (b :: rest) delta h = (b' :: rest', h') /\
    node b' = node b.
Proof.
  cbn [dealloc_walk].
  destruct (delta =? 0); [do 3 eexists; split; reflexivity |].
  destruct (mem b) as [p |].
  - destruct (sz b <=? delta).
    + destruct (dealloc_walk false rest _ _) as [l h2].
      do 3 eexists; split; reflexivity.
    + do 3 eexists; split; reflexivity.
  - destruct (dealloc_walk false rest delta h) as [l h2].
    do 3 eexists; split; reflexivity.
Qed.

Lemma step_nonempty s s' : shaper_step s s' -> fst s <> [] -> fst s' <> [].
Proof.
  intros H. destruct H as [l t r h | l d h s' Hd Hg | l d h Hd]; cbn [fst].
  - exact (fun H => H).
  - intros Hl. destruct l as [| b rest]; [contradiction Hl; reflexivity |].
    rewrite grow_span_cons in Hg. injection Hg as <-.
    destruct (mem b); discriminate.
  - intros Hl. destruct l as [| b rest]; [contradiction Hl; reflexivity |].
    destruct (dealloc_walk_head b rest d h) as (b' & rest' & h' & -> & _).
    discriminate.
Qed.

Lemma reaches_nonempty s s' : reaches s s' -> fst s <> [] -> fst s' <> [].
Proof.
  apply (reaches_invariant (fun s => fst s <> [])). exact step_nonempty.
Qed.

Lemma for_loop_grow_reaches d t r n :
  0 < d <= MiB ->
  forall st, fst st <> [] ->
  exists st',
    for_loop n (fun st => grow_span (fst st) d (enter t r (snd st))) st
      = Done st' /\
    reaches st st'.
Proof.
  intros Hd. induction n as [| n IH]; intros [l h] Hl.
  - exists (l, h). split; [reflexivity | apply reaches_refl].
  - cbn [for_loop fst snd].
    destruct l as [| b rest]; [contradiction Hl; reflexivity |].
    destruct (grow_span (b :: rest) d (enter t r h)) as [st1 | |] eqn:Hg;
      try (rewrite grow_span_cons in Hg; discriminate).
    assert (H1 : reaches (b :: rest, h) st1).
    { eapply reaches_step; [apply (step_enter _ t r) |].
      apply reaches_one. eapply step_grow; eassumption. }
    destruct (IH st1) as (st' & Hrun & Hre).
    { eapply (reaches_nonempty _ _ H1). discriminate. }
    exists st'. split; [exact Hrun |].
    eapply reaches_trans; eassumption.
Qed.

(** Within the domain of the span count, two levels of recursion are
    enough for every call, and the call is a sequence of atomic actions. *)
Lemma reallocMemory_reaches fuel memory t r h :
  call_ok (t, r) -> memory <> [] ->
  exists s',
    reallocMemory (S (S fuel)) memory t r h = Done s' /\
    reaches (memory, h) s'.
Proof.
  intros (Ht & Hr & Hd) Hl. cbn [fst snd] in *.
  destruct (Z.lt_trichotomy t r) as [Hlt | [Heq | Hgt]].
  - destruct (Z.le_gt_cases (r - t) MiB) as [Hsmall | Hbig].
    + rewrite reallocMemory_grow_one by (try assumption; lia).
      destruct memory as [| b rest]; [contradiction Hl; reflexivity |].
      destruct (grow_span (b :: rest) (r - t) (enter t r h)) as [st1 | |] eqn:Hg;
        try (rewrite grow_span_cons in Hg; discriminate).
      exists st1. split; [reflexivity |].
      eapply reaches_step; [apply (step_enter _ t r) |].
      apply reaches_one. eapply step_grow; [| eassumption]. lia.
    + destruct (reallocMemory_grow_split fuel memory t r h Ht Hr (conj Hbig Hd))
        as (s & Hs & ->).
      destruct (span_count_in_domain (r - t) (conj Hbig Hd))
        as (s0 & Hs0 & _ & _ & Hsub).
      assert (s0 = s) by congruence. subst s0.
      destruct (for_loop_grow_reaches ((r - t) / s) t (t + (r - t) / s)
                  (Z.to_nat s) ltac:(lia) (memory, enter t r h) Hl)
        as (st' & Hrun & Hre).
      exists st'. split; [exact Hrun |].
      eapply reaches_step; [apply (step_enter _ t r) | exact Hre].
  - subst r. rewrite reallocMemory_same. eexists. split; [reflexivity |].
    apply reaches_one. apply step_enter.
  - rewrite reallocMemory_shrink by assumption.
    eexists. split; [reflexivity |].
    eapply reaches_step; [apply (step_enter _ t r) |].
    apply reaches_one. apply step_shrink. unfold is_size_t in *. lia.
Qed.

Lemma run_calls_reaches fuel cs :
  Forall call_ok cs ->
  forall memory h, memory <> [] ->
  exists s',
    run_calls (S (S fuel)) cs memory h = Done s' /\
    reaches (memory, h) s'.
Proof.
  induction 1 as [| [t r] cs Hc _ IH]; intros memory h Hl.
  - exists (memory, h). split; [reflexivity | apply reaches_refl].
  - cbn [run_calls].
    destruct (reallocMemory_reaches fuel memory t r h Hc Hl)
      as ([l1 h1] & -> & H1).
    destruct (IH l1 h1) as (s' & Hrun & H2).
    { exact (reaches_nonempty _ _ H1 Hl). }
    exists s'. split; [exact Hrun | eapply reaches_trans; eassumption].
Qed.

Lemma for_loop_reaches n (body : ledger * heap -> outcome (ledger * heap)) :
  (forall s s', body s = Done s' -> reaches s s') ->
  forall s s', for_loop n body s = Done s' -> reaches s s'.
Proof.
  intros Hbody. induction n as [| n IH]; intros s s' Hrun.
  - injection Hrun as <-. apply reaches_refl.
  - cbn [for_loop] in Hrun.
    destruct (body s) as [s1 | |] eqn:Hb; try discriminate.
    eapply reaches_trans; [apply Hbody, Hb | apply IH, Hrun].
Qed.

(** Whatever the depth allowed, a call that returns is a sequence of
    atomic actions. *)
Lemma reallocMemory_done_reaches fuel :
  forall memory t r h s',
    is_size_t t -> is_size_t r ->
    reallocMemory fuel memory t r h = Done s' ->
    reaches (memory, h) s'.
Proof.
  induction fuel as [| fuel IH]; intros memory t r h s' Ht Hr Hrun;
    [discriminate |].
  rewrite reallocMemory_S in Hrun. cbv zeta in Hrun.
  eapply reaches_step; [apply (step_enter _ t r) |].
  destruct (Z.ltb_spec t r) as [Hlt | Hge].
  - rewrite (wrap_size_id (r - t)) in Hrun by size_lia.
    destruct (Z.ltb_spec MiB (r - t)) as [Hbig | Hsmall].
    + destruct (span_count (r - t)) as [s |]; [| discriminate].
      revert Hrun. apply for_loop_reaches.
      intros [l1 h1] s1 Hb. cbn [fst snd] in Hb.
      apply IH in Hb; [exact Hb | exact Ht | apply wrap_size_range].
    + apply reaches_one. eapply step_grow; [| exact Hrun]. lia.
  - destruct (Z.ltb_spec r t) as [Hlt | Heq];
      injection Hrun as <-; [| apply reaches_refl].
    apply reaches_one.
    rewrite wrap_size_id by size_lia.
    apply step_shrink. unfold is_size_t in *. lia.
Qed.

Lemma run_calls_done_reaches fuel cs :
  Forall size_args cs ->
  forall memory h s',
    run_calls fuel cs memory h = Done s' -> reaches (memory, h) s'.
Proof.
  induction 1 as [| [t r] cs [Ht Hr] _ IH]; intros memory h s' Hrun.
  - injection Hrun as <-. apply reaches_refl.
  - cbn [run_calls] in Hrun. cbn [fst snd] in Ht, Hr.
    destruct (reallocMemory fuel memory t r h) as [[l1 h1] | |] eqn:Hc;
      try discriminate.
    eapply reaches_trans;
      [exact (reallocMemory_done_reaches _ _ _ _ _ _ Ht Hr Hc) | apply IH, Hrun].
Qed.

Lemma call_ok_size_args cs : Forall call_ok cs -> Forall size_args cs.
Proof.
  apply Forall_impl. intros c (Ht & Hr & _). split; assumption.
Qed.

(** * The walk that gives memory back *)

Lemma sizes_ok_cons b l :
  sizes_ok (b :: l) <-> is_size_t (sz b) /\ sizes_ok l.
Proof.
  unfold sizes_ok. split.
  - intros H. inversion H; subst. split; assumption.
  - intros [H1 H2]. constructor; assumption.
Qed.

Lemma live_total_nonneg l : sizes_ok l -> 0 <= live_total l.
Proof.
  induction l as [| b l IH]; intros H; cbn [live_total]; [lia |].
  apply sizes_ok_cons in H. destruct H as [Hb Hl]. specialize (IH Hl).
  unfold is_size_t in Hb. destruct (mem b); lia.
Qed.

(** The walk takes exactly [delta] bytes off the live total when the list
    holds that much. *)
Lemma dealloc_walk_live blocks :
  sizes_ok blocks ->
  forall prev delta h,
    0 <= delta <= live_total blocks -> delta < SIZE_MAX_succ ->
    live_total (fst (dealloc_walk prev blocks delta h))
      = live_total blocks - delta.
Proof.
  induction blocks as [| b rest IH]; intros Hok prev delta h Hd Hmax.
  - cbn in *. lia.
  - apply sizes_ok_cons in Hok. destruct Hok as [Hb Hrest].
    specialize (IH Hrest).
    pose proof (live_total_nonneg rest Hrest) as Hnn.
    cbn [dealloc_walk].
    destruct (Z.eqb_spec delta 0) as [-> | Hne]; [cbn [fst]; lia |].
    cbn [live_total] in *.
    destruct (mem b) as [p |] eqn:Hm.
    + destruct (Z.leb_spec (sz b) delta) as [Hle | Hgt].
      * assert (Hw : wrap_size (delta - sz b) = delta - sz b).
        { apply wrap_size_id. unfold is_size_t in *. lia. }
        rewrite Hw.
        destruct prev.
        -- specialize (IH false (delta - sz b) (free p h)).
           destruct (dealloc_walk false rest (delta - sz b) (free p h))
             as [l h2].
           cbn [fst live_total mem] in *.
           rewrite IH by size_lia. lia.
        -- rewrite IH by size_lia. lia.
      * assert (Hw : wrap_size (sz b - delta) = sz b - delta).
        { apply wrap_size_id. unfold is_size_t in *. lia. }
        rewrite Hw. cbn [malloc fst live_total mem sz]. lia.
    + specialize (IH false delta h).
      destruct (dealloc_walk false rest delta h) as [l h2].
      cbn [fst live_total] in *. rewrite Hm. apply IH; lia.
Qed.

(** The walk keeps sizes in range and handles in step with sizes. *)
Lemma dealloc_walk_tidy blocks :
  sizes_ok blocks -> tidy blocks ->
  forall prev delta h,
    0 <= delta ->
    sizes_ok (fst (dealloc_walk prev blocks delta h)) /\
    tidy (fst (dealloc_walk prev blocks delta h)).
Proof.
  induction blocks as [| b rest IH]; intros Hok Ht prev delta h Hd.
  - cbn. split; constructor.
  - pose proof Hok as Hok'. pose proof Ht as Ht'.
    apply sizes_ok_cons in Hok. destruct Hok as [Hb Hrest].
    inversion Ht as [| ? ? Htb Htr]; subst.
    specialize (IH Hrest Htr).
    cbn [dealloc_walk].
    destruct (Z.eqb_spec delta 0) as [-> | Hne]; [cbn [fst]; split; assumption |].
    destruct (mem b) as [p |] eqn:Hm.
    + destruct (Z.leb_spec (sz b) delta) as [Hle | Hgt].
      * pose proof (wrap_size_range (delta - sz b)) as Hr.
        destruct prev.
        -- specialize (IH false (wrap_size (delta - sz b)) (free p h)
                         ltac:(unfold is_size_t in Hr; lia)).
           destruct (dealloc_walk false rest _ (free p h)) as [l h2].
           cbn [fst] in *. destruct IH as [IH1 IH2]. split.
           ++ apply sizes_ok_cons. split; [| exact IH1].
              cbn. unfold is_size_t, SIZE_MAX_succ. change (2 ^ 64) with 18446744073709551616. lia.
           ++ constructor; [| exact IH2]. unfold tidy_block. cbn. tauto.
        -- apply IH. unfold is_size_t in Hr. lia.
      * assert (Hw : wrap_size (sz b - delta) = sz b - delta).
        { apply wrap_size_id. unfold is_size_t in *. lia. }
        rewrite Hw. cbn [malloc fst]. split.
        -- apply sizes_ok_cons. split; [| exact Hrest].
           cbn. unfold is_size_t in *. lia.
        -- constructor; [| exact Htr]. unfold tidy_block. cbn.
           split; [discriminate | lia].
    + specialize (IH false delta h Hd).
      destruct (dealloc_walk false rest delta h) as [l h2].
      cbn [fst] in *. destruct IH as [IH1 IH2]. split.
      * apply sizes_ok_cons. split; assumption.
      * constructor; assumption.
Qed.

(** A walk that asks for more than the list holds gives everything back
    and reaches the end of the list. *)
Lemma dealloc_walk_sweep_rest blocks :
  sizes_ok blocks ->
  forall delta h,
    live_total blocks < delta < SIZE_MAX_succ ->
    dealloc_walk false blocks delta h
      = (filter (fun b => negb (is_live b)) blocks,
         free_all (swept_rest blocks) h).
Proof.
  induction blocks as [| b rest IH]; intros Hok delta h Hd.
  - reflexivity.
  - apply sizes_ok_cons in Hok. destruct Hok as [Hb Hrest].
    specialize (IH Hrest).
    pose proof (live_total_nonneg rest Hrest) as Hnn.
    cbn [dealloc_walk live_total swept_rest filter] in *. unfold is_live.
    destruct (Z.eqb_spec delta 0) as [-> | Hne].
    { destruct (mem b); unfold is_size_t in *; lia. }
    destruct (mem b) as [p |] eqn:Hm; cbn [negb].
    + destruct (Z.leb_spec (sz b) delta) as [Hle | Hgt];
        [| unfold is_size_t in *; lia].
      rewrite wrap_size_id by size_lia.
      rewrite IH by size_lia. reflexivity.
    + rewrite IH by lia. reflexivity.
Qed.

Lemma dealloc_walk_sweep l :
  sizes_ok l ->
  forall delta h,
    live_total l < delta < SIZE_MAX_succ ->
    dealloc_walk true l delta h = (swept l, free_all (swept_ptrs l) h).
Proof.
  intros Hok delta h Hd. destruct l as [| b rest]; [reflexivity |].
  apply sizes_ok_cons in Hok. destruct Hok as [Hb Hrest].
  pose proof (live_total_nonneg rest Hrest) as Hnn.
  cbn [dealloc_walk live_total swept swept_ptrs] in *. unfold is_live.
  destruct (Z.eqb_spec delta 0) as [-> | Hne].
  { destruct (mem b); unfold is_size_t in *; lia. }
  destruct (mem b) as [p |] eqn:Hm.
  - destruct (Z.leb_spec (sz b) delta) as [Hle | Hgt];
      [| unfold is_size_t in *; lia].
    rewrite wrap_size_id by size_lia.
    rewrite dealloc_walk_sweep_rest
      by (try assumption; unfold is_size_t in *; lia).
    reflexivity.
  - rewrite dealloc_walk_sweep_rest by (try assumption; lia). reflexivity.
Qed.

Lemma handles_filter_dead l :
  handles (filter (fun b => negb (is_live b)) l) = [].
Proof.
  induction l as [| b l IH]; [reflexivity |].
  cbn [filter]. unfold is_live. destruct (mem b) eqn:Hm; cbn [negb].
  - exact IH.
  - cbn [handles]. rewrite Hm. exact IH.
Qed.

Lemma handles_swept l : handles (swept l) = [].
Proof.
  destruct l as [| b rest]; [reflexivity |].
  cbn [swept]. unfold is_live.
  destruct (mem b) eqn:Hm; cbn [handles mem]; try rewrite Hm;
    apply handles_filter_dead.
Qed.

Lemma live_total_no_handles l : handles l = [] -> live_total l = 0.
Proof.
  induction l as [| b l IH]; [reflexivity |].
  cbn [handles live_total]. destruct (mem b); [discriminate | exact IH].
Qed.

Lemma freed_of_app es es' : freed_of (es ++ es') = freed_of es ++ freed_of es'.
Proof.
  induction es as [| e es IH]; [reflexivity |].
  destruct e; cbn [app freed_of]; rewrite IH; reflexivity.
Qed.

Lemma freed_free p h : freed (free p h) = freed h ++ [p].
Proof. unfold freed, history. cbn. rewrite freed_of_app. reflexivity. Qed.

Lemma freed_enter t r h : freed (enter t r h) = freed h.
Proof.
  unfold freed, history. cbn. rewrite freed_of_app. cbn. apply app_nil_r.
Qed.

Lemma freed_free_all ps h : freed (free_all ps h) = freed h ++ ps.
Proof.
  revert h. induction ps as [| p ps IH]; intros h; cbn.
  - symmetry. apply app_nil_r.
  - unfold free_all in IH. rewrite IH, freed_free, <- app_assoc. reflexivity.
Qed.

Lemma handles_in_swept_rest l p : In p (handles l) -> In p (swept_rest l).
Proof.
  induction l as [| b l IH]; [intros [] |].
  cbn [handles swept_rest]. destruct (mem b); cbn; intuition.
Qed.

Lemma handles_in_swept_ptrs l p : In p (handles l) -> In p (swept_ptrs l).
Proof.
  destruct l as [| b rest]; [intros [] |].
  cbn [handles swept_ptrs]. destruct (mem b); cbn;
    pose proof (handles_in_swept_rest rest p); intuition.
Qed.

(** * Addresses *)

Lemma separated_spec l h :
  separated l h <->
  NoDup (pointers l) /\ forall p, In p (pointers l) -> (p < brk h)%nat.
Proof. unfold separated. rewrite Forall_forall. reflexivity. Qed.

Lemma freed_malloc n h : freed (snd (malloc n h)) = freed h.
Proof.
  unfold freed, history. cbn. rewrite freed_of_app. cbn. apply app_nil_r.
Qed.

Lemma freed_of_rev_malloc p n es :
  freed_of (rev (EvMalloc p n :: es)) = freed_of (rev es).
Proof. cbn. rewrite freed_of_app. cbn. apply app_nil_r. Qed.

(** The walk keeps the addresses apart; what it adds is fresh. *)
Lemma dealloc_walk_separated blocks :
  forall prev delta h,
    separated blocks h ->
    separated (fst (dealloc_walk prev blocks delta h))
              (snd (dealloc_walk prev blocks delta h)) /\
    (brk h <= brk (snd (dealloc_walk prev blocks delta h)))%nat /\
    (forall p, In p (pointers (fst (dealloc_walk prev blocks delta h))) ->
               In p (pointers blocks) \/ (brk h <= p)%nat).
Proof.
  induction blocks as [| b rest IH]; intros prev delta h Hsep.
  - cbn. repeat split; [exact (proj1 Hsep) | constructor | lia | tauto].
  - cbn [dealloc_walk].
    destruct (delta =? 0).
    { cbn [fst snd]. repeat split; [apply Hsep | apply Hsep | lia | tauto]. }
    apply separated_spec in Hsep. destruct Hsep as [Hnd Hlt].
    cbn [pointers] in Hnd, Hlt |- *.
    destruct (mem b) as [p |] eqn:Hm.
    + apply NoDup_cons_iff in Hnd. destruct Hnd as [Hn1 Hnd].
      apply NoDup_cons_iff in Hnd. destruct Hnd as [Hn2 Hnd].
      assert (Hrest : forall h', brk h' = brk h -> separated rest h').
      { intros h' Hb. apply separated_spec. split; [exact Hnd |].
        intros x Hx. rewrite Hb. apply Hlt. right. right. exact Hx. }
      destruct (sz b <=? delta).
      * destruct prev.
        -- specialize (IH false (wrap_size (delta - sz b)) (free p h)
                         (Hrest _ eq_refl)).
           destruct (dealloc_walk false rest _ (free p h)) as [l h2].
           cbn [fst snd brk free] in *.
           destruct IH as (IHs & IHb & IHp).
           apply separated_spec in IHs. destruct IHs as [IHnd IHlt].
           split; [apply separated_spec; split |]; cbn [pointers mem node].
           ++ constructor; [| exact IHnd].
              intros Hin. destruct (IHp _ Hin) as [Hr | Hf].
              ** apply Hn1. right. exact Hr.
              ** specialize (Hlt (node b) (or_introl eq_refl)). lia.
           ++ intros x [<- | Hx]; [| apply IHlt, Hx].
              specialize (Hlt (node b) (or_introl eq_refl)). lia.
           ++ split; [exact IHb |].
              intros x [<- | Hx]; [left; left; reflexivity |].
              destruct (IHp _ Hx) as [Hr | Hf]; [left; right; right; exact Hr | right; exact Hf].
        -- specialize (IH false (wrap_size (delta - sz b))
                         (free (node b) (free p h)) (Hrest _ eq_refl)).
           cbn [brk free] in IH. destruct IH as (IHs & IHb & IHp).
           split; [exact IHs | split; [exact IHb |]].
           intros x Hx. destruct (IHp _ Hx) as [Hr | Hf];
             [left; right; right; exact Hr | right; exact Hf].
      * cbn [malloc fst snd brk free].
        split; [apply separated_spec; split |]; cbn [pointers mem node brk].
        -- constructor.
           ++ intros [Heq | Hin]; [| apply Hn1; right; exact Hin].
              specialize (Hlt (node b) (or_introl eq_refl)). lia.
           ++ constructor; [| exact Hnd].
              intros Hin. specialize (Hlt (brk h) (or_intror (or_intror Hin))). lia.
        -- intros x [<- | [<- | Hx]].
           ++ specialize (Hlt (node b) (or_introl eq_refl)). lia.
           ++ lia.
           ++ specialize (Hlt x (or_intror (or_intror Hx))). lia.
        -- split; [lia |].
           intros x [<- | [<- | Hx]];
             [left; left; reflexivity | right; lia | left; right; right; exact Hx].
    + apply NoDup_cons_iff in Hnd. destruct Hnd as [Hn1 Hnd].
      assert (Hrest : separated rest h).
      { apply separated_spec. split; [exact Hnd |].
        intros x Hx. apply Hlt. right. exact Hx. }
      specialize (IH false delta h Hrest).
      destruct (dealloc_walk false rest delta h) as [l h2].
      cbn [fst snd] in *. destruct IH as (IHs & IHb & IHp).
      apply separated_spec in IHs. destruct IHs as [IHnd IHlt].
      split; [apply separated_spec; split |]; cbn [pointers]; try rewrite Hm.
      * constructor; [| exact IHnd].
        intros Hin. destruct (IHp _ Hin) as [Hr | Hf].
        -- apply Hn1. exact Hr.
        -- specialize (Hlt (node b) (or_introl eq_refl)). lia.
      * intros x [<- | Hx]; [| apply IHlt, Hx].
        specialize (Hlt (node b) (or_introl eq_refl)). lia.
      * split; [exact IHb |].
        intros x [<- | Hx]; [left; left; reflexivity |].
        destruct (IHp _ Hx) as [Hr | Hf]; [left; right; exact Hr | right; exact Hf].
Qed.

(** Past the head, the walk releases only addresses the list holds. *)
Lemma dealloc_walk_frees_rest blocks :
  forall delta h p,
    In p (freed (snd (dealloc_walk false blocks delta h))) ->
    In p (freed h) \/ In p (pointers blocks).
Proof.
  induction blocks as [| b rest IH]; intros delta h p.
  - cbn. tauto.
  - cbn [dealloc_walk pointers].
    destruct (delta =? 0); [cbn; tauto |].
    destruct (mem b) as [q |] eqn:Hm.
    + destruct (sz b <=? delta).
      * intros Hin. apply IH in Hin.
        rewrite !freed_free, !in_app_iff in Hin. cbn in *. intuition.
      * cbn [malloc snd]. intros Hin.
        change (In p (freed (snd (malloc (wrap_size (sz b - delta)) (free q h))))) in Hin.
        rewrite freed_malloc, freed_free, in_app_iff in Hin. cbn in *. intuition.
    + specialize (IH delta h p).
      destruct (dealloc_walk false rest delta h) as [l h2].
      cbn [snd] in *. intros Hin. apply IH in Hin. cbn. intuition.
Qed.

(** At the head the walk releases the handle and never the node. *)
Lemma dealloc_walk_frees_head b rest delta h p :
  In p (freed (snd (dealloc_walk true (b :: rest) delta h))) ->
  In p (freed h) \/ mem b = Some p \/ In p (pointers rest).
Proof.
  cbn [dealloc_walk].
  destruct (delta =? 0); [cbn; tauto |].
  destruct (mem b) as [q |] eqn:Hm.
  - destruct (sz b <=? delta).
    + pose proof (dealloc_walk_frees_rest rest (wrap_size (delta - sz b))
                    (free q h) p) as Hr.
      destruct (dealloc_walk false rest _ (free q h)) as [l h2].
      cbn [snd] in *. intros Hin. apply Hr in Hin.
      rewrite freed_free, in_app_iff in Hin. cbn in *.
      intuition (subst; auto).
    + cbn [malloc snd]. intros Hin.
      change (In p (freed (snd (malloc (wrap_size (sz b - delta)) (free q h))))) in Hin.
      rewrite freed_malloc, freed_free, in_app_iff in Hin. cbn in *.
      intuition (subst; auto).
  - pose proof (dealloc_walk_frees_rest rest delta h p) as Hr.
    destruct (dealloc_walk false rest delta h) as [l h2].
    cbn [snd] in *. intros Hin. apply Hr in Hin. intuition.
Qed.

Lemma step_head_kept a F s s' :
  shaper_step s s' -> head_kept a F s -> head_kept a F s'.
Proof.
  intros Hstep ((hd & tl & Hl & Ha) & Hsep & Hfree).
  unfold head_kept.
  destruct Hstep as [l t r h | l d h s' Hd Hg | l d h Hd];
    cbn [fst snd] in *; subst l.
  - split; [exists hd, tl; split; [reflexivity | exact Ha] |].
    split; [exact Hsep | rewrite freed_enter; exact Hfree].
  - rewrite grow_span_cons in Hg. injection Hg as <-.
    apply separated_spec in Hsep. destruct Hsep as [Hnd Hlt].
    cbn [pointers] in Hnd, Hlt.
    destruct (mem hd) as [q |] eqn:Hm; cbn [fst snd app].
    + split; [exists hd, (mkBlock (brk h) d (Some (S (brk h))) :: tl);
               split; [reflexivity | exact Ha] |].
      split.
      * apply separated_spec. cbn [pointers mem node brk]. rewrite Hm. split.
        -- apply NoDup_cons_iff in Hnd. destruct Hnd as [Hn1 Hnd].
           apply NoDup_cons_iff in Hnd. destruct Hnd as [Hn2 Hnd].
           pose proof (Hlt (node hd) (or_introl eq_refl)).
           pose proof (Hlt q (or_intror (or_introl eq_refl))).
           assert (Hfr : forall x, In x (pointers tl) -> (x < brk h)%nat)
             by (intros x Hx; apply Hlt; right; right; exact Hx).
           repeat (apply NoDup_cons;
                   [cbn; intros Hin;
                    repeat (destruct Hin as [Hin | Hin]; try lia);
                    try (apply Hfr in Hin; lia) |]); try exact Hnd.
           ++ apply Hn1. left. exact Hin.
           ++ apply Hn1. right. exact Hin.
           ++ apply Hn2. exact Hin.
        -- intros x [<- | [<- | [<- | [<- | Hx]]]];
             try (specialize (Hlt _ (or_introl eq_refl)); lia);
             try (specialize (Hlt _ (or_intror (or_introl eq_refl))); lia);
             try lia.
           specialize (Hlt x (or_intror (or_intror Hx))). lia.
      * unfold freed, history in *. cbn [log].
        rewrite !freed_of_rev_malloc. exact Hfree.
    + split; [eexists _, _; split; [reflexivity | exact Ha] |].
      split.
      * apply separated_spec. cbn [pointers mem node brk]. split.
        -- apply NoDup_cons_iff in Hnd. destruct Hnd as [Hn1 Hnd].
           pose proof (Hlt (node hd) (or_introl eq_refl)).
           assert (Hfr : forall x, In x (pointers tl) -> (x < brk h)%nat)
             by (intros x Hx; apply Hlt; right; exact Hx).
           repeat (apply NoDup_cons;
                   [cbn; intros Hin;
                    repeat (destruct Hin as [Hin | Hin]; try lia);
                    try (apply Hfr in Hin; lia) |]); try exact Hnd.
           apply Hn1. exact Hin.
        -- intros x [<- | [<- | [<- | [<- | Hx]]]];
             try (specialize (Hlt _ (or_introl eq_refl)); lia);
             try lia.
           specialize (Hlt x (or_intror Hx)). lia.
      * unfold freed, history in *. cbn [log].
        rewrite !freed_of_rev_malloc. exact Hfree.
  - destruct (dealloc_walk_head hd tl d h) as (b' & rest' & h' & Hw & Hb').
    pose proof (dealloc_walk_separated (hd :: tl) true d h Hsep) as (Hs' & _ & _).
    pose proof (dealloc_walk_frees_head hd tl d h a) as Hfr.
    rewrite Hw in *. cbn [fst snd] in *.
    split; [exists b', rest'; split; [reflexivity | congruence] |].
    split; [exact Hs' |].
    intros Hin. apply Hfr in Hin.
    apply separated_spec in Hsep. destruct Hsep as [Hnd _].
    cbn [pointers] in Hnd.
    destruct Hin as [Hin | [Hin | Hin]]; [apply Hfree, Hin | |].
    + exfalso. rewrite Hin in Hnd. apply NoDup_cons_iff in Hnd.
      apply (proj1 Hnd). left. congruence.
    + exfalso. destruct (mem hd); apply NoDup_cons_iff in Hnd;
        apply (proj1 Hnd); rewrite Ha; [right |]; exact Hin.
Qed.

(** * Sizes and handles *)

Lemma step_well_kept s s' : shaper_step s s' -> well_kept s -> well_kept s'.
Proof.
  intros Hstep [Hok Ht]. unfold well_kept.
  destruct Hstep as [l t r h | l d h s' Hd Hg | l d h Hd]; cbn [fst] in *.
  - split; assumption.
  - destruct l as [| b rest]; [discriminate |].
    rewrite grow_span_cons in Hg. injection Hg as <-.
    apply sizes_ok_cons in Hok. destruct Hok as [Hb Hrest].
    inversion Ht as [| ? ? Htb Htr]; subst.
    assert (Hdr : is_size_t d).
    { unfold is_size_t, SIZE_MAX_succ, MiB in *.
      change (2 ^ 64) with 18446744073709551616. lia. }
    assert (Hnew : forall a p, tidy_block (mkBlock a d (Some p))).
    { intros a p. unfold tidy_block. cbn. split; [discriminate | lia]. }
    destruct (mem b); cbn [fst app]; split;
      try (unfold tidy; repeat (apply Forall_cons;
                                [assumption || apply Hnew |]); exact Htr);
      repeat (apply sizes_ok_cons; split; [assumption || exact Hdr |]);
      exact Hrest.
  - apply dealloc_walk_tidy; [assumption | assumption | lia].
Qed.

Lemma reaches_well_kept s s' : reaches s s' -> well_kept s -> well_kept s'.
Proof. apply (reaches_invariant well_kept). exact step_well_kept. Qed.

Lemma reaches_head_kept a F s s' :
  reaches s s' -> head_kept a F s -> head_kept a F s'.
Proof. apply (reaches_invariant (head_kept a F)). apply step_head_kept. Qed.

Lemma is_live_false b : is_live b = false -> mem b = None.
Proof. unfold is_live. destruct (mem b); [discriminate | reflexivity]. Qed.

Lemma total_size_dead l :
  tidy l -> total_size (filter (fun b => negb (is_live b)) l) = 0.
Proof.
  induction l as [| b l IH]; intros Ht; [reflexivity |].
  inversion Ht as [| ? ? Hb Hl]; subst. cbn [filter].
  destruct (is_live b) eqn:Hlive; cbn [negb total_size]; [apply IH, Hl |].
  rewrite (IH Hl). apply is_live_false in Hlive.
  rewrite (proj1 Hb Hlive). reflexivity.
Qed.

Lemma total_size_swept l : tidy l -> total_size (swept l) = 0.
Proof.
  intros Ht. destruct l as [| b rest]; [reflexivity |].
  inversion Ht as [| ? ? Hb Hl]; subst.
  cbn [swept total_size]. rewrite (total_size_dead rest Hl).
  destruct (is_live b) eqn:Hlive; cbn [sz]; [reflexivity |].
  apply is_live_false in Hlive. rewrite (proj1 Hb Hlive). reflexivity.
Qed.

(** * The log of calls *)

Lemma calls_of_app es es' : calls_of (es ++ es') = calls_of es ++ calls_of es'.
Proof.
  induction es as [| e es IH]; [reflexivity |].
  destruct e; cbn [app calls_of]; rewrite IH; reflexivity.
Qed.

Lemma calls_enter t r h : calls (enter t r h) = calls h ++ [(t, r)].
Proof. unfold calls, history. cbn. rewrite calls_of_app. reflexivity. Qed.

Lemma calls_grow_span memory d h s' :
  grow_span memory d h = Done s' -> calls (snd s') = calls h.
Proof.
  destruct memory as [| b rest]; [discriminate |].
  rewrite grow_span_cons. intros H. injection H as <-.
  unfold calls, history. destruct (mem b); cbn [snd log rev];
    rewrite !calls_of_app; cbn; rewrite ?app_nil_r; reflexivity.
Qed.

Lemma for_loop_grow_calls d t r n :
  forall st st',
    for_loop n (fun st => grow_span (fst st) d (enter t r (snd st))) st
      = Done st' ->
    calls (snd st') = calls (snd st) ++ repeat (t, r) n.
Proof.
  induction n as [| n IH]; intros st st' Hrun.
  - cbn in Hrun. injection Hrun as <-. cbn. symmetry. apply app_nil_r.
  - cbn [for_loop] in Hrun.
    destruct (grow_span (fst st) d (enter t r (snd st))) as [st1 | |] eqn:Hg;
      try discriminate.
    rewrite (IH st1 st' Hrun), (calls_grow_span _ _ _ _ Hg), calls_enter.
    rewrite <- app_assoc. reflexivity.
Qed.

(** * The list of [printGraph] *)

(** [printGraph]'s loop is a run of chained calls, and it starts from a
    list the invariants above hold of. *)
Lemma printGraph_loop_chained fuel targets :
  forall memory totMem h,
    printGraph_loop fuel targets memory totMem h
      = run_calls fuel (chained totMem targets) memory h.
Proof.
  induction targets as [| m targets IH]; intros memory totMem h;
    [reflexivity |].
  cbn [printGraph_loop chained run_calls].
  destruct (reallocMemory fuel memory totMem m h) as [[l' h'] | |];
    [apply IH | reflexivity | reflexivity].
Qed.

Lemma printGraph_init_separated h :
  separated (fst (printGraph_init h)) (snd (printGraph_init h)).
Proof.
  split; cbn.
  - apply NoDup_cons; [intros [] | apply NoDup_nil].
  - apply Forall_cons; [lia | apply Forall_nil].
Qed.

Lemma printGraph_init_well_kept h : well_kept (printGraph_init h).
Proof.
  split; cbn; repeat constructor; cbn; try reflexivity;
    unfold SIZE_MAX_succ; lia.
Qed.

(** * The properties of the specification *)

(** C1 (ledger-total invariant), at the input where the code breaks it.
    On the list [printGraph] creates, the first call [reallocMemory(memory,
    0, 1)] fills the head with one byte and, the test of line 104 having no
    [else], also links a new block of one byte: the live sizes sum to 2
    while the requested total is 1. *)
Theorem C1_first_growth_counts_twice :
  exists l h,
    printGraph_loop 2 [1] (fst fresh) 0 (snd fresh) = Done (l, h) /\
    l = [mkBlock 0 1 (Some 1%nat); mkBlock 2 1 (Some 3%nat)] /\
    live_total l = 2.
Proof. do 2 eexists. split; [vm_compute; reflexivity |]. split; reflexivity. Qed.

(** C2 (growth by one span), at the input where the code breaks it.  With
    a head whose handle is null, [reallocMemory(memory, 0, 1)] fills the
    head and inserts a new block behind it as well: the insertion is not
    reserved to the case of a head with a handle. *)
Theorem C2_null_head_growth_also_inserts :
  reallocMemory 1 [mkBlock 0 0 None] 0 1 (mkHeap 1 [])
  = Done ([mkBlock 0 1 (Some 1%nat); mkBlock 2 1 (Some 3%nat)],
          mkHeap 4 [EvMalloc 3 1; EvMalloc 2 24; EvMalloc 1 1; EvCall 0 1]).
Proof. vm_compute. reflexivity. Qed.

(** C3 (teardown), at the input where the code breaks it.  After the single
    target 1 the list is the head (node 0, handle 1) followed by one block
    (node 2, handle 3).  [destroyMemory] releases the handle of the head
    and the head node, and stops before the last block; [printGraph] then
    releases the head node a second time.  Handle 3 and node 2 are never
    released. *)
Theorem C3_teardown_skips_last_and_frees_head_twice :
  exists h,
    printGraph 2 [1] = Done h /\
    history h =
      [EvMalloc 0 24; EvCall 0 1; EvMalloc 1 1; EvMalloc 2 24; EvMalloc 3 1;
       EvFree 1; EvFree 0; EvFree 0] /\
    freed h = [1; 0; 0]%nat.
Proof. eexists. split; [vm_compute; reflexivity |]. split; reflexivity. Qed.

(** C4 (round trip), at the input where the code breaks it.  Growing the
    fresh list from 0 to 1 and shrinking it from 1 to 0 leaves the block
    the growth inserted behind the head: one handle is still set and the
    live sizes sum to 1. *)
Theorem C4_round_trip_leaves_a_block :
  exists l h,
    printGraph_loop 2 [1; 0] (fst fresh) 0 (snd fresh) = Done (l, h) /\
    l = [mkBlock 0 0 None; mkBlock 2 1 (Some 3%nat)] /\
    handles l = [3%nat] /\
    live_total l = 1.
Proof.
  do 2 eexists. split; [vm_compute; reflexivity |]. repeat split; reflexivity.
Qed.

(** C5 (shrink exactness).  On a list whose live sizes sum to [T], the call
    that shrinks from [T] to [T - delta], [0 < delta <= T], returns and
    leaves live sizes that sum to [T - delta]. *)
Theorem C5_shrink_exact fuel l T delta h :
  sizes_ok l -> is_size_t T -> live_total l = T -> 0 < delta <= T ->
  exists l' h',
    reallocMemory (S fuel) l T (T - delta) h = Done (l', h') /\
    live_total l' = T - delta.
Proof.
  intros Hok HT Hsum Hd.
  rewrite reallocMemory_shrink by size_lia.
  replace (T - (T - delta)) with delta by lia.
  pose proof (dealloc_walk_live l Hok true delta (enter T (T - delta) h)
                ltac:(lia) ltac:(size_lia)) as Hlive.
  destruct (dealloc_walk true l delta _) as [l' h'].
  exists l', h'. split; [reflexivity |]. cbn [fst] in Hlive. lia.
Qed.

(** The statement at [sample_three], shrunk from 10 bytes to 6. *)
Lemma C5_shrink_exact_witness :
  sizes_ok sample_three /\ is_size_t 10 /\ live_total sample_three = 10 /\
  0 < 4 <= 10 /\
  exists l' h',
    reallocMemory 1 sample_three 10 (10 - 4) sample_heap = Done (l', h') /\
    live_total l' = 10 - 4.
Proof.
  assert (Hok : sizes_ok sample_three)
    by (repeat constructor; literal_lia).
  assert (HT : is_size_t 10) by literal_lia.
  assert (Hsum : live_total sample_three = 10) by reflexivity.
  assert (Hd : 0 < 4 <= 10) by lia.
  repeat (split; [assumption |]).
  exact (C5_shrink_exact 0 sample_three 10 4 sample_heap Hok HT Hsum Hd).
Defined.

(** C6 as stated fails.  A growth of [2^24 + 1] bytes is converted to the
    single-precision value [2^24]; the quotient by 1 MiB is exactly 16, so
    the code makes 16 recursive calls where [ceil(delta / 1 MiB)] is 17. *)
Lemma C6_sixteen_spans_for_seventeen :
  exists l h,
    reallocMemory 2 (fst fresh) 0 16777217 (snd fresh) = Done (l, h) /\
    sub_steps (snd fresh) h = 16%nat /\
    ceil_div 16777217 MiB = 17.
Proof. do 2 eexists. split; [vm_compute; reflexivity |]. split; reflexivity. Qed.

(** C6, amended.  A growth by [delta] above 1 MiB, within the domain of the
    span count, returns after exactly [spans] recursive calls, where
    [spans] is [ceil(f / 1 MiB)] for the single-precision value [f] of
    [delta]; [f] is [delta] itself up to [2^24] bytes.  Every recursive
    call asks for [delta / spans] bytes, so their sum falls short of
    [delta] by less than [spans]; for 2.5 MiB there are 3 calls that ask
    for 2621439 bytes in all. *)
Theorem C6_growth_split fuel memory t r h :
  memory <> [] -> is_size_t t -> is_size_t r ->
  MiB < r - t < SPAN_DOMAIN ->
  exists spans l' h',
    spans = ceil_div (float_of_Z (r - t)) MiB /\
    reallocMemory (S (S fuel)) memory t r h = Done (l', h') /\
    calls h' = calls h ++ (t, r)
                 :: repeat (t, t + (r - t) / spans) (Z.to_nat spans) /\
    sub_steps h h' = Z.to_nat spans /\
    (r - t <= 2 ^ 24 -> spans = ceil_div (r - t) MiB) /\
    (r - t) - spans < spans * ((r - t) / spans) <= r - t /\
    (r - t = 2621440 -> spans = 3 /\ spans * ((r - t) / spans) = 2621439).
Proof.
  intros Hl Ht Hr Hd.
  destruct (span_count_in_domain (r - t) Hd) as (s & Hs & Hceil & Hs2 & Hsub).
  destruct (reallocMemory_grow_split fuel memory t r h Ht Hr Hd)
    as (s' & Hs' & Heq).
  assert (s' = s) by congruence. subst s'.
  destruct (for_loop_grow_reaches ((r - t) / s) t (t + (r - t) / s)
              (Z.to_nat s) ltac:(lia) (memory, enter t r h) Hl)
    as ([l' h'] & Hrun & _).
  pose proof (for_loop_grow_calls _ _ _ _ _ _ Hrun) as Hcalls.
  cbn [snd] in Hcalls. rewrite calls_enter, <- app_assoc in Hcalls.
  exists s, l', h'.
  split; [exact Hceil |].
  split; [rewrite Heq; exact Hrun |].
  split; [exact Hcalls |].
  split.
  { unfold sub_steps. rewrite Hcalls, length_app. cbn [app length].
    rewrite repeat_length. lia. }
  split.
  { intros Hle. rewrite Hceil. f_equal.
    destruct (Z.eq_dec (r - t) (2 ^ 24)) as [-> | Hne]; [reflexivity |].
    apply float_of_Z_small. lia. }
  split.
  { pose proof (Z.div_mod (r - t) s ltac:(lia)) as Hdm.
    pose proof (Z.mod_pos_bound (r - t) s ltac:(lia)) as Hm.
    rewrite Z.mul_comm. lia. }
  intros E. rewrite E in Hceil. rewrite Hceil, E. split; reflexivity.
Qed.

(** The statement at the growth of the fresh list by 2.5 MiB. *)
Lemma C6_growth_split_witness :
  fst fresh <> [] /\ is_size_t 0 /\ is_size_t 2621440 /\
  MiB < 2621440 - 0 < SPAN_DOMAIN /\
  exists spans l' h',
    spans = ceil_div (float_of_Z (2621440 - 0)) MiB /\
    reallocMemory 2 (fst fresh) 0 2621440 (snd fresh) = Done (l', h') /\
    calls h' = calls (snd fresh) ++ (0, 2621440)
                 :: repeat (0, 0 + (2621440 - 0) / spans) (Z.to_nat spans) /\
    sub_steps (snd fresh) h' = Z.to_nat spans /\
    (2621440 - 0 <= 2 ^ 24 -> spans = ceil_div (2621440 - 0) MiB) /\
    (2621440 - 0) - spans < spans * ((2621440 - 0) / spans) <= 2621440 - 0 /\
    (2621440 - 0 = 2621440 ->
     spans = 3 /\ spans * ((2621440 - 0) / spans) = 2621439).
Proof.
  assert (Hl : fst fresh <> []) by discriminate.
  assert (Ht : is_size_t 0) by literal_lia.
  assert (Hr : is_size_t 2621440) by literal_lia.
  assert (Hd : MiB < 2621440 - 0 < SPAN_DOMAIN)
    by literal_lia.
  repeat (split; [assumption |]).
  exact (C6_growth_split 0 (fst fresh) 0 2621440 (snd fresh) Hl Ht Hr Hd).
Defined.

(** C7 (head persistence).  Through every sequence of calls the list keeps
    its first node: whenever the calls return, the node is still at the
    front and its address has not been passed to [free]; and the calls do
    return within the domain of the span count.  A shrink that uses up the
    head leaves the node in place with a null handle and size zero. *)
Theorem C7_head_persistence fuel cs head rest h :
  Forall size_args cs -> separated (head :: rest) h ->
  (forall l' h',
     run_calls fuel cs (head :: rest) h = Done (l', h') ->
     exists head' rest',
       l' = head' :: rest' /\ node head' = node head /\
       (In (node head) (freed h') -> In (node head) (freed h))) /\
  (Forall call_ok cs ->
   exists s', run_calls (S (S fuel)) cs (head :: rest) h = Done s') /\
  (forall t r p,
     is_size_t t -> is_size_t r -> r < t ->
     mem head = Some p -> sz head <= t - r ->
     exists rest' h',
       reallocMemory (S fuel) (head :: rest) t r h
         = Done (mkBlock (node head) 0 None :: rest', h') /\
       (In (node head) (freed h') -> In (node head) (freed h))).
Proof.
  intros Hcs Hsep.
  assert (Hk : head_kept (node head) (freed h) (head :: rest, h)).
  { split; [exists head, rest; split; reflexivity |].
    split; [exact Hsep | exact (fun H => H)]. }
  split; [| split].
  - intros l' h' Hrun.
    pose proof (run_calls_done_reaches fuel cs Hcs _ _ _ Hrun) as Hre.
    pose proof (reaches_head_kept _ _ _ _ Hre Hk)
      as ((head' & rest' & Hl' & Hn) & _ & Hfr).
    cbn [fst snd] in *. exists head', rest'. repeat split; assumption.
  - intros Hok.
    destruct (run_calls_reaches fuel cs Hok (head :: rest) h ltac:(discriminate))
      as (s' & Hrun & _).
    exists s'. exact Hrun.
  - intros t r p Ht Hr Hlt Hm Hsz.
    rewrite reallocMemory_shrink by assumption.
    assert (Hst : shaper_step (head :: rest, enter t r h)
                    (dealloc_walk true (head :: rest) (t - r) (enter t r h))).
    { apply step_shrink. size_lia. }
    assert (Hk' : head_kept (node head) (freed h) (head :: rest, enter t r h)).
    { eapply step_head_kept; [apply (step_enter _ t r) | exact Hk]. }
    pose proof (step_head_kept _ _ _ _ Hst Hk') as (_ & _ & Hfr).
    revert Hfr. cbn [dealloc_walk].
    destruct (Z.eqb_spec (t - r) 0); [lia |].
    rewrite Hm. destruct (Z.leb_spec (sz head) (t - r)); [| lia].
    destruct (dealloc_walk false rest _ _) as [l h2]. cbn [snd].
    intros Hfr. exists l, h2. split; [reflexivity | exact Hfr].
Qed.

(** The statement at a list of two blocks of 4 bytes, run through
    [sample_calls]. *)
Lemma C7_head_persistence_witness :
  Forall size_args sample_calls /\
  separated [mkBlock 0 4 (Some 1%nat); mkBlock 2 4 (Some 3%nat)]
    (mkHeap 4 []) /\
  Forall call_ok sample_calls /\
  (exists head' rest' h',
     run_calls 2 sample_calls
       [mkBlock 0 4 (Some 1%nat); mkBlock 2 4 (Some 3%nat)] (mkHeap 4 [])
       = Done (head' :: rest', h') /\
     node head' = 0%nat /\ ~ In 0%nat (freed h')) /\
  (exists rest' h',
     reallocMemory 1 [mkBlock 0 4 (Some 1%nat); mkBlock 2 4 (Some 3%nat)]
       8 3 (mkHeap 4 [])
       = Done (mkBlock 0 0 None :: rest', h') /\
     ~ In 0%nat (freed h')).
Proof.
  assert (Hok : Forall call_ok sample_calls)
    by (repeat constructor; literal_lia).
  assert (Hcs : Forall size_args sample_calls)
    by (repeat constructor; literal_lia).
  assert (Hsep : separated [mkBlock 0 4 (Some 1%nat); mkBlock 2 4 (Some 3%nat)]
                   (mkHeap 4 [])).
  { split.
    - repeat (apply NoDup_cons; [cbn; lia |]). apply NoDup_nil.
    - repeat (apply Forall_cons; [cbn; lia |]). apply Forall_nil. }
  repeat (split; [assumption |]).
  destruct (C7_head_persistence 0 sample_calls _ _ _ Hcs Hsep)
    as (_ & Hdone & Hone).
  destruct (C7_head_persistence 2 sample_calls _ _ _ Hcs Hsep)
    as (Hinv & _ & _).
  split.
  - destruct (Hdone Hok) as ([l' h'] & Hrun).
    destruct (Hinv l' h' Hrun) as (head' & rest' & -> & Hn & Hfr).
    exists head', rest', h'. split; [exact Hrun |]. split; [exact Hn |].
    intros Hin. exact (Hfr Hin).
  - destruct (Hone 8 3 1%nat) as (rest' & h' & Hrun & Hfr);
      try (unfold is_size_t, SIZE_MAX_succ; cbn; lia); [reflexivity |].
    exists rest', h'. split; [exact Hrun |].
    intros Hin. exact (Hfr Hin).
Defined.

(** C8 (handle and size).  On the list [printGraph] creates and after
    every sequence of calls on it, a block has a null handle exactly when
    its size is zero: this holds whenever the calls return, and they do
    return within the domain of the span count. *)
Theorem C8_handle_null_iff_size_zero fuel cs h :
  Forall size_args cs ->
  (forall l' h',
     run_calls fuel cs (fst (printGraph_init h)) (snd (printGraph_init h))
       = Done (l', h') ->
     forall b, In b l' -> (mem b = None <-> sz b = 0)) /\
  (Forall call_ok cs ->
   exists s',
     run_calls (S (S fuel)) cs (fst (printGraph_init h))
       (snd (printGraph_init h)) = Done s').
Proof.
  intros Hcs. split.
  - intros l' h' Hrun.
    pose proof (run_calls_done_reaches fuel cs Hcs _ _ _ Hrun) as Hre.
    pose proof (reaches_well_kept _ _ Hre (printGraph_init_well_kept h))
      as [_ Ht].
    cbn [fst] in Ht. unfold tidy in Ht. rewrite Forall_forall in Ht. exact Ht.
  - intros Hok.
    destruct (run_calls_reaches fuel cs Hok (fst (printGraph_init h))
                (snd (printGraph_init h)) ltac:(discriminate))
      as (s' & Hrun & _).
    exists s'. exact Hrun.
Qed.

(** The statement at five chained calls on the fresh list. *)
Lemma C8_handle_null_iff_size_zero_witness :
  Forall size_args ((0, 5) :: (5, 8) :: sample_calls) /\
  Forall call_ok ((0, 5) :: (5, 8) :: sample_calls) /\
  exists l' h',
    run_calls 2 ((0, 5) :: (5, 8) :: sample_calls)
      (fst (printGraph_init empty_heap)) (snd (printGraph_init empty_heap))
      = Done (l', h') /\
    forall b, In b l' -> (mem b = None <-> sz b = 0).
Proof.
  assert (Hok : Forall call_ok ((0, 5) :: (5, 8) :: sample_calls))
    by (repeat constructor; literal_lia).
  assert (Hcs : Forall size_args ((0, 5) :: (5, 8) :: sample_calls))
    by (repeat constructor; literal_lia).
  repeat (split; [assumption |]).
  destruct (C8_handle_null_iff_size_zero 0 _ empty_heap Hcs) as (_ & Hdone).
  destruct (C8_handle_null_iff_size_zero 2 _ empty_heap Hcs) as (Hinv & _).
  destruct (Hdone Hok) as ([l' h'] & Hrun).
  exists l', h'. split; [exact Hrun | exact (Hinv l' h' Hrun)].
Defined.

(** C9 as stated fails.  For a growth of [2^52] bytes the quotient by
    1 MiB is [2^32] in single precision, which [unsigned] cannot hold: no
    span count is computed and the call has no defined result, whatever
    the depth allowed. *)
Lemma C9_no_span_count_at_2p52 :
  is_size_t (2 ^ 52) /\
  span_count (2 ^ 52) = None /\
  forall fuel s',
    reallocMemory fuel (fst fresh) 0 (2 ^ 52) (snd fresh) <> Done s'.
Proof.
  split; [unfold is_size_t, SIZE_MAX_succ; lia |].
  assert (Hn : span_count (2 ^ 52) = None) by (vm_compute; reflexivity).
  split; [exact Hn |].
  intros [| fuel] s'; [discriminate |].
  rewrite reallocMemory_S. cbv zeta.
  change (0 <? 2 ^ 52) with true.
  change (wrap_size (2 ^ 52 - 0)) with (2 ^ 52).
  change (MiB <? 2 ^ 52) with true. cbv iota.
  rewrite Hn. discriminate.
Qed.

(** C9, amended.  Within the domain of the span count every call returns
    with two levels of recursion.  When the growth exceeds 1 MiB the span
    count is at least 2, so a recursive call asks for [delta / spans],
    less than [delta] and at most 1 MiB; a call that does not split
    returns without recursion. *)
Theorem C9_termination fuel memory t r h :
  memory <> [] -> call_ok (t, r) ->
  (exists s', reallocMemory (S (S fuel)) memory t r h = Done s') /\
  (MiB < r - t ->
   exists spans,
     span_count (r - t) = Some spans /\ 2 <= spans /\
     (r - t) / spans < r - t /\ (r - t) / spans <= MiB) /\
  (r - t <= MiB -> exists s', reallocMemory 1 memory t r h = Done s').
Proof.
  intros Hl Hc. pose proof Hc as (Ht & Hr & Hd). cbn [fst snd] in *.
  split.
  { destruct (reallocMemory_reaches fuel memory t r h Hc Hl) as (s' & Hs & _).
    exists s'. exact Hs. }
  split.
  { intros Hbig.
    destruct (span_count_in_domain (r - t) (conj Hbig Hd))
      as (s & Hs & _ & _ & _).
    destruct (span_count_bounds (r - t) s Hbig Hs) as (H2 & Hsub & Hlt).
    exists s. repeat split; try assumption; lia. }
  intros Hsmall.
  destruct (Z.lt_trichotomy t r) as [Hlt | [Heq | Hgt]].
  - rewrite reallocMemory_grow_one by (try assumption; lia).
    destruct memory as [| b rest]; [contradiction Hl; reflexivity |].
    rewrite grow_span_cons. eexists. reflexivity.
  - subst r. rewrite reallocMemory_same. eexists. reflexivity.
  - rewrite reallocMemory_shrink by assumption. eexists. reflexivity.
Qed.

(** The statement at the growth of the fresh list by 2.5 MiB. *)
Lemma C9_termination_witness :
  fst fresh <> [] /\ call_ok (0, 2621440) /\
  (exists s',
     reallocMemory 2 (fst fresh) 0 2621440 (snd fresh) = Done s') /\
  (MiB < 2621440 - 0 ->
   exists spans,
     span_count (2621440 - 0) = Some spans /\ 2 <= spans /\
     (2621440 - 0) / spans < 2621440 - 0 /\
     (2621440 - 0) / spans <= MiB) /\
  (2621440 - 0 <= MiB ->
   exists s', reallocMemory 1 (fst fresh) 0 2621440 (snd fresh) = Done s').
Proof.
  assert (Hl : fst fresh <> []) by discriminate.
  assert (Hc : call_ok (0, 2621440))
    by (repeat split; literal_lia).
  repeat (split; [assumption |]).
  exact (C9_termination 0 (fst fresh) 0 2621440 (snd fresh) Hl Hc).
Defined.

(** C10 (shrink beyond the live total).  When the list holds less than the
    shrink asks for, the call returns normally with the list swept: the
    head is kept without handle and with size zero, every other block that
    had a handle is unlinked, every handle has been passed to [free], and
    the live sizes sum to zero. *)
Theorem C10_shrink_beyond_total fuel l t r h :
  sizes_ok l -> is_size_t t -> is_size_t r -> r < t ->
  live_total l < t - r ->
  exists h',
    reallocMemory (S fuel) l t r h = Done (swept l, h') /\
    freed h' = freed h ++ swept_ptrs l /\
    (forall p, In p (handles l) -> In p (freed h')) /\
    handles (swept l) = [] /\
    live_total (swept l) = 0 /\
    (tidy l -> total_size (swept l) = 0).
Proof.
  intros Hok Ht Hr Hlt Hd.
  exists (free_all (swept_ptrs l) (enter t r h)).
  rewrite reallocMemory_shrink by assumption.
  rewrite dealloc_walk_sweep by (try assumption; unfold is_size_t in *; lia).
  assert (Hf : freed (free_all (swept_ptrs l) (enter t r h))
               = freed h ++ swept_ptrs l).
  { rewrite freed_free_all, freed_enter. reflexivity. }
  split; [reflexivity |].
  split; [exact Hf |].
  split.
  { intros p Hp. rewrite Hf. apply in_or_app. right.
    apply handles_in_swept_ptrs, Hp. }
  split; [apply handles_swept |].
  split; [apply live_total_no_handles, handles_swept |].
  apply total_size_swept.
Qed.

(** The statement at [sample_gap], which holds 8 bytes, shrunk by 20. *)
Lemma C10_shrink_beyond_total_witness :
  sizes_ok sample_gap /\ is_size_t 20 /\ is_size_t 0 /\ 0 < 20 /\
  live_total sample_gap < 20 - 0 /\
  exists h',
    reallocMemory 1 sample_gap 20 0 sample_heap = Done (swept sample_gap, h') /\
    freed h' = freed sample_heap ++ swept_ptrs sample_gap /\
    (forall p, In p (handles sample_gap) -> In p (freed h')) /\
    handles (swept sample_gap) = [] /\
    live_total (swept sample_gap) = 0 /\
    (tidy sample_gap -> total_size (swept sample_gap) = 0).
Proof.
  assert (Hok : sizes_ok sample_gap)
    by (repeat constructor; literal_lia).
  assert (Ht : is_size_t 20) by literal_lia.
  assert (Hr : is_size_t 0) by literal_lia.
  assert (Hlt : 0 < 20) by lia.
  assert (Hd : live_total sample_gap < 20 - 0) by (cbn; lia).
  repeat (split; [assumption |]).
  exact (C10_shrink_beyond_total 0 sample_gap 20 0 sample_heap
           Hok Ht Hr Hlt Hd).
Defined.

(** * Further properties of the code *)

(** ** Teardown *)

Lemma occ_app x l l' : occ x (l ++ l') = (occ x l + occ x l')%nat.
Proof. apply count_occ_app. Qed.

Lemma occ_cons x y l :
  occ x (y :: l) = ((if Nat.eq_dec y x then 1 else 0) + occ x l)%nat.
Proof. unfold occ. cbn. destruct (Nat.eq_dec y x); reflexivity. Qed.

Lemma occ_nil x : occ x [] = 0%nat.
Proof. reflexivity. Qed.

Lemma occ_not_in x l : ~ In x l -> occ x l = 0%nat.
Proof. apply count_occ_not_In. Qed.

Lemma destroy_loop_frees rest :
  forall block h,
    freed (destroy_loop block rest h)
      = freed h ++ flat_map block_release (removelast (block :: rest)).
Proof.
  induction rest as [| m rest IH]; intros block h.
  - cbn. symmetry. apply app_nil_r.
  - cbn [destroy_loop]. rewrite IH.
    change (removelast (block :: m :: rest))
      with (block :: removelast (m :: rest)).
    cbn [flat_map].
    assert (Hb : block_release block
                 = match mem block with
                   | Some p => [p; node block]
                   | None => [node block]
                   end) by reflexivity.
    rewrite Hb. clear Hb.
    destruct (mem block) as [p |];
      rewrite ?freed_free, <- ?app_assoc; reflexivity.
Qed.

Lemma destroy_loop_brk rest :
  forall block h,
    brk (destroy_loop block rest h) = brk h /\
    calls (destroy_loop block rest h) = calls h.
Proof.
  induction rest as [| m rest IH]; intros block h; [split; reflexivity |].
  cbn [destroy_loop]. destruct (IH m (free (node block)
    match mem block with Some p => free p h | None => h end)) as [Hb Hc].
  rewrite Hb, Hc. destruct (mem block); split; cbn; try reflexivity;
    unfold calls, history; cbn; rewrite !calls_of_app; cbn;
    rewrite ?app_nil_r; reflexivity.
Qed.

(** X1.  [destroyMemory] passes to [free] the handle and the node of every
    block except the last one, in list order, and nothing else; it
    allocates nothing. *)
Theorem destroyMemory_releases_all_but_last block rest h :
  exists h',
    destroyMemory (block :: rest) h = Done h' /\
    freed h' = freed h ++ flat_map block_release (removelast (block :: rest)) /\
    brk h' = brk h.
Proof.
  exists (destroy_loop block rest h).
  split; [reflexivity |].
  split; [apply destroy_loop_frees | apply destroy_loop_brk].
Qed.

Lemma in_block_release_pointers x l :
  In x (flat_map block_release l) -> In x (pointers l).
Proof.
  induction l as [| b l IH]; [intros [] |].
  change (flat_map block_release (b :: l))
    with (block_release b ++ flat_map block_release l).
  cbn [pointers]. unfold block_release.
  rewrite in_app_iff. destruct (mem b); cbn; intuition.
Qed.

Lemma pointers_app l l' : pointers (l ++ l') = pointers l ++ pointers l'.
Proof.
  induction l as [| b l IH]; [reflexivity |].
  cbn [app pointers]. rewrite IH. destruct (mem b); reflexivity.
Qed.

Lemma occ_block_release x l :
  occ x (flat_map block_release l) = occ x (pointers l).
Proof.
  induction l as [| b l IH]; [reflexivity |].
  change (flat_map block_release (b :: l))
    with (block_release b ++ flat_map block_release l).
  cbn [pointers]. rewrite occ_app, IH. unfold block_release.
  destruct (mem b); rewrite !occ_cons, ?occ_nil;
    repeat destruct (Nat.eq_dec _ _); lia.
Qed.

Lemma teardown_frees head rest h :
  exists h',
    printGraph_teardown (head :: rest) h = Done h' /\
    freed h' = freed h
                 ++ flat_map block_release (removelast (head :: rest))
                 ++ [node head].
Proof.
  unfold printGraph_teardown, destroyMemory.
  eexists. split; [reflexivity |].
  rewrite freed_free, destroy_loop_frees, <- app_assoc. reflexivity.
Qed.

(** X2.  When the list has two blocks or more, the teardown of [printGraph]
    passes the head node to [free] twice: once in [destroyMemory] and once
    more at line 189. *)
Theorem teardown_frees_head_twice head second rest h :
  separated (head :: second :: rest) h ->
  ~ In (node head) (freed h) ->
  exists h',
    printGraph_teardown (head :: second :: rest) h = Done h' /\
    occ (node head) (freed h') = 2%nat.
Proof.
  intros [Hnd _] Hfresh.
  destruct (teardown_frees head (second :: rest) h) as (h' & Hrun & Hf).
  exists h'. split; [exact Hrun |].
  rewrite Hf, !occ_app, (occ_not_in _ _ Hfresh).
  change (removelast (head :: second :: rest))
    with (head :: removelast (second :: rest)).
  change (flat_map block_release (head :: removelast (second :: rest)))
    with (block_release head
            ++ flat_map block_release (removelast (second :: rest))).
  rewrite occ_app, occ_block_release.
  assert (Hn : ~ In (node head) (pointers (removelast (second :: rest)))).
  { intros Hin. cbn [pointers] in Hnd.
    assert (Hin' : In (node head) (pointers (second :: rest))).
    { rewrite (app_removelast_last second (l := second :: rest))
        by discriminate.
      rewrite pointers_app. apply in_or_app. left. exact Hin. }
    destruct (mem head); apply NoDup_cons_iff in Hnd;
      apply (proj1 Hnd); [right |]; exact Hin'. }
  rewrite (occ_not_in _ _ Hn).
  cbn [pointers] in Hnd. unfold block_release.
  destruct (mem head) as [p |]; rewrite !occ_cons, occ_nil.
  - apply NoDup_cons_iff in Hnd. destruct Hnd as [Hne _].
    destruct (Nat.eq_dec p (node head)) as [E | _];
      [contradiction Hne; left; exact E |].
    destruct (Nat.eq_dec (node head) (node head)); [reflexivity | congruence].
  - destruct (Nat.eq_dec (node head) (node head)); [reflexivity | congruence].
Qed.

(** X3.  The teardown never releases the handle of the last block of the
    list, nor its node when the list has two blocks or more. *)
Theorem teardown_leaks_last_block front last h :
  separated (front ++ [last]) h ->
  exists h',
    printGraph_teardown (front ++ [last]) h = Done h' /\
    (forall p, mem last = Some p -> In p (freed h') -> In p (freed h)) /\
    (front <> [] -> In (node last) (freed h') -> In (node last) (freed h)).
Proof.
  intros [Hnd _].
  destruct (front ++ [last]) as [| head rest] eqn:El;
    [destruct front; discriminate |].
  destruct (teardown_frees head rest h) as (h' & Hrun & Hf).
  exists h'. split; [exact Hrun |].
  rewrite <- El in Hf, Hnd. rewrite removelast_last in Hf.
  rewrite pointers_app in Hnd.
  assert (Hsep : forall x, In x (pointers front) -> In x (pointers [last]) -> False).
  { intros x H1 H2. revert Hnd H1 H2. generalize (pointers front) (pointers [last]).
    intros a b Hnd H1 H2. induction a as [| y a IH]; [contradiction |].
    cbn in Hnd. apply NoDup_cons_iff in Hnd. destruct Hnd as [Hy Hnd].
    destruct H1 as [-> | H1]; [apply Hy, in_or_app; right; exact H2 |].
    exact (IH Hnd H1). }
  assert (Hhead : In (node head) (pointers front) \/ front = []).
  { destruct front as [| f front']; [right; reflexivity | left].
    cbn in El. injection El as -> _. cbn [pointers].
    destruct (mem head); left; reflexivity. }
  split.
  - intros p Hp Hin. rewrite Hf, !in_app_iff in Hin.
    assert (Hpl : In p (pointers [last]))
      by (cbn [pointers]; rewrite Hp; right; left; reflexivity).
    destruct Hin as [Hin | [Hin | [Hin | []]]]; [exact Hin | |].
    + exfalso. apply in_block_release_pointers in Hin. exact (Hsep p Hin Hpl).
    + exfalso. destruct Hhead as [Hh | ->].
      * rewrite Hin in Hh. exact (Hsep p Hh Hpl).
      * cbn in El. injection El as -> _.
        cbn [app pointers] in Hnd. rewrite Hp in Hnd.
        apply NoDup_cons_iff in Hnd. apply (proj1 Hnd). left. symmetry. exact Hin.
  - intros Hne Hin. rewrite Hf, !in_app_iff in Hin.
    assert (Hpl : In (node last) (pointers [last]))
      by (cbn [pointers]; destruct (mem last); left; reflexivity).
    destruct Hin as [Hin | [Hin | [Hin | []]]]; [exact Hin | |].
    + exfalso. apply in_block_release_pointers in Hin.
      exact (Hsep _ Hin Hpl).
    + exfalso. destruct Hhead as [Hh | E]; [| contradiction].
      rewrite Hin in Hh. exact (Hsep _ Hh Hpl).
Qed.

(** ** Shrinking *)

Lemma live_total_swept l : live_total (swept l) = 0.
Proof. apply live_total_no_handles, handles_swept. Qed.

(** X4.  Whatever the bookkeeping of the caller, a shrink lowers the live
    total by [totalSpace - requested], and to zero when the list holds
    less. *)
Theorem shrink_live_total fuel l t r h :
  sizes_ok l -> is_size_t t -> is_size_t r -> r < t ->
  exists l' h',
    reallocMemory (S fuel) l t r h = Done (l', h') /\
    live_total l' = Z.max 0 (live_total l - (t - r)).
Proof.
  intros Hok Ht Hr Hlt.
  rewrite reallocMemory_shrink by assumption.
  destruct (Z.le_gt_cases (t - r) (live_total l)) as [Hle | Hgt].
  - pose proof (dealloc_walk_live l Hok true (t - r) (enter t r h)
                  ltac:(lia) ltac:(size_lia)) as Hlive.
    destruct (dealloc_walk true l (t - r) _) as [l' h'].
    exists l', h'. split; [reflexivity |]. cbn [fst] in Hlive. lia.
  - rewrite dealloc_walk_sweep by (try assumption; size_lia).
    do 2 eexists. split; [reflexivity |].
    rewrite live_total_swept. lia.
Qed.

Lemma live_total_app l l' : live_total (l ++ l') = live_total l + live_total l'.
Proof.
  induction l as [| b l IH]; [reflexivity |].
  cbn [app live_total]. rewrite IH. destruct (mem b); lia.
Qed.

(** The walk stops once [delta] is met: what lies behind is not read. *)
Lemma dealloc_walk_app pre post :
  sizes_ok pre ->
  forall prev delta h,
    0 <= delta <= live_total pre -> delta < SIZE_MAX_succ ->
    dealloc_walk prev (pre ++ post) delta h
      = (fst (dealloc_walk prev pre delta h) ++ post,
         snd (dealloc_walk prev pre delta h)).
Proof.
  induction pre as [| b rest IH]; intros Hok prev delta h Hd Hmax.
  - cbn [live_total] in Hd. assert (delta = 0) by lia. subst delta.
    destruct post; reflexivity.
  - apply sizes_ok_cons in Hok. destruct Hok as [Hb Hrest].
    specialize (IH Hrest).
    pose proof (live_total_nonneg rest Hrest) as Hnn.
    cbn [app dealloc_walk live_total] in *.
    destruct (Z.eqb_spec delta 0) as [-> | Hne]; [reflexivity |].
    destruct (mem b) as [p |] eqn:Hm.
    + destruct (Z.leb_spec (sz b) delta) as [Hle | Hgt].
      * assert (Hw : wrap_size (delta - sz b) = delta - sz b)
          by (apply wrap_size_id; size_lia).
        rewrite Hw.
        destruct prev.
        -- rewrite IH by size_lia.
           destruct (dealloc_walk false rest (delta - sz b) (free p h)).
           reflexivity.
        -- apply IH; size_lia.
      * reflexivity.
    + rewrite IH by lia.
      destruct (dealloc_walk false rest delta h). reflexivity.
Qed.

(** X5.  A shrink takes from the front of the list: when the blocks of a
    prefix hold the bytes to give back, the call does on the whole list
    what it does on the prefix, and the blocks behind it are untouched. *)
Theorem shrink_leaves_tail_untouched fuel pre post t r h :
  sizes_ok pre -> is_size_t t -> is_size_t r -> r < t ->
  t - r <= live_total pre ->
  exists l1 h',
    reallocMemory (S fuel) pre t r h = Done (l1, h') /\
    reallocMemory (S fuel) (pre ++ post) t r h = Done (l1 ++ post, h').
Proof.
  intros Hok Ht Hr Hlt Hd.
  rewrite !reallocMemory_shrink by assumption.
  rewrite dealloc_walk_app by (try assumption; size_lia).
  destruct (dealloc_walk true pre (t - r) (enter t r h)) as [l1 h'].
  exists l1, h'. split; reflexivity.
Qed.

(** ** Growing *)

Lemma freed_grow_span memory d h s' :
  grow_span memory d h = Done s' -> freed (snd s') = freed h.
Proof.
  destruct memory as [| b rest]; [discriminate |].
  rewrite grow_span_cons. intros H. injection H as <-.
  unfold freed, history. destruct (mem b); cbn [snd log];
    rewrite !freed_of_rev_malloc; reflexivity.
Qed.

Lemma is_live_true b : is_live b = true -> exists p, mem b = Some p.
Proof. unfold is_live. destruct (mem b) as [p |]; [eauto | discriminate]. Qed.

(** [n] spans of [c] bytes in a row: the head is filled by the first one
    if it had no handle, and each span links one block behind the head. *)
Lemma grow_loop_shape c t r n :
  forall head rest h,
  exists head' news h',
    for_loop n (fun st => grow_span (fst st) c (enter t r (snd st)))
      (head :: rest, h) = Done (head' :: news ++ rest, h') /\
    length news = n /\
    Forall (fun b => sz b = c /\ mem b <> None) news /\
    node head' = node head /\
    (is_live head = true \/ n = O -> head' = head) /\
    (is_live head = false -> n <> O -> sz head' = c /\ mem head' <> None) /\
    freed h' = freed h /\
    live_total (head' :: news ++ rest)
      = live_total (head :: rest) + Z.of_nat n * c
        + (if is_live head then 0 else match n with O => 0 | S _ => c end).
Proof.
  induction n as [| n IH]; intros head rest h.
  - exists head, [], h. cbn [for_loop app length].
    repeat split; try reflexivity; try constructor; try tauto.
    destruct (is_live head); lia.
  - cbn [for_loop fst snd]. rewrite grow_span_cons.
    destruct (mem head) as [p |] eqn:Hm.
    + set (new := mkBlock (brk (enter t r h)) c
                    (Some (S (brk (enter t r h))))).
      set (h1 := mkHeap _ _).
      destruct (IH head (new :: rest) h1)
        as (head' & news & h' & Hrun & Hlen & Hall & Hnode & Hsame & _ & Hfr & Hlive).
      assert (Hl : is_live head = true) by (unfold is_live; rewrite Hm; reflexivity).
      exists head', (news ++ [new]), h'.
      change ([head; new] ++ rest) with (head :: new :: rest).
      rewrite <- app_assoc. cbn [app].
      split; [exact Hrun |].
      split; [rewrite length_app; cbn; lia |].
      split.
      { apply Forall_app. split; [exact Hall |].
        constructor; [| constructor]. cbn. split; [reflexivity | discriminate]. }
      split; [exact Hnode |].
      split; [intros _; apply Hsame; left; exact Hl |].
      split; [intros Hd; congruence |].
      split.
      { rewrite Hfr. unfold h1, freed, history. cbn [log enter].
        rewrite !freed_of_rev_malloc. cbn. rewrite freed_of_app. cbn.
        apply app_nil_r. }
      rewrite Hlive, Hl. cbn [live_total mem sz new]. rewrite Hm. lia.
    + set (head1 := mkBlock (node head) c (Some (brk (enter t r h)))).
      set (new := mkBlock (S (brk (enter t r h))) c
                    (Some (S (S (brk (enter t r h)))))).
      set (h1 := mkHeap _ _).
      destruct (IH head1 (new :: rest) h1)
        as (head' & news & h' & Hrun & Hlen & Hall & Hnode & Hsame & _ & Hfr & Hlive).
      assert (Hl : is_live head = false) by (unfold is_live; rewrite Hm; reflexivity).
      assert (Hl1 : is_live head1 = true) by reflexivity.
      exists head', (news ++ [new]), h'.
      change ([head1; new] ++ rest) with (head1 :: new :: rest).
      rewrite <- app_assoc. cbn [app].
      split; [exact Hrun |].
      split; [rewrite length_app; cbn; lia |].
      split.
      { apply Forall_app. split; [exact Hall |].
        constructor; [| constructor]. cbn. split; [reflexivity | discriminate]. }
      split; [exact Hnode |].
      split; [intros [Hd | Hd]; [congruence | discriminate] |].
      split.
      { intros _ _. rewrite (Hsame (or_introl Hl1)). cbn.
        split; [reflexivity | discriminate]. }
      split.
      { rewrite Hfr. unfold h1, freed, history. cbn [log enter].
        rewrite !freed_of_rev_malloc. cbn. rewrite freed_of_app. cbn.
        apply app_nil_r. }
      rewrite Hlive, Hl, Hl1. cbn [live_total mem sz new head1]. rewrite Hm. lia.
Qed.

(** X6.  A growth of at most 1 MiB links exactly one new block of [delta]
    bytes directly behind the head, leaves every other block as it is and
    calls [free] on nothing.  A head without handle is filled with
    [delta] bytes as well, so that the live total rises by [delta] when
    the head had a handle and by twice [delta] when it had none. *)
Theorem grow_one_span fuel head rest t r h :
  is_size_t t -> is_size_t r -> 0 < r - t <= MiB ->
  exists head' new h',
    reallocMemory (S fuel) (head :: rest) t r h
      = Done (head' :: new :: rest, h') /\
    sz new = r - t /\ mem new <> None /\
    node head' = node head /\
    (is_live head = true -> head' = head) /\
    (is_live head = false -> sz head' = r - t /\ mem head' <> None) /\
    freed h' = freed h /\
    live_total (head' :: new :: rest)
      = live_total (head :: rest)
        + (if is_live head then r - t else 2 * (r - t)).
Proof.
  intros Ht Hr Hd.
  rewrite reallocMemory_grow_one by assumption.
  destruct (grow_loop_shape (r - t) t r 1 head rest h)
    as (head' & news & h' & Hrun & Hlen & Hall & Hnode & Hsame & Hfill
        & Hfr & Hlive).
  destruct news as [| new [| ? ?]]; try discriminate.
  cbn [for_loop fst snd app] in Hrun.
  destruct (grow_span (head :: rest) (r - t) (enter t r h)) as [s1 | |];
    try discriminate.
  injection Hrun as ->.
  inversion Hall as [| ? ? [Hsz Hmem] _]; subst.
  exists head', new, h'.
  split; [reflexivity |].
  repeat (split; [assumption |]).
  split; [intros Hl; apply Hsame; left; exact Hl |].
  split; [intros Hl; apply Hfill; [exact Hl | discriminate] |].
  split; [exact Hfr |].
  cbn [app] in Hlive. rewrite Hlive.
  destruct (is_live head); lia.
Qed.

(** No span is smaller than half the ceiling. *)
Lemma span_size_lower delta s :
  MiB < delta ->
  span_count delta = Some s ->
  MiB / 2 <= delta / s.
Proof.
  intros Hd Hs.
  assert (H0 : 0 <= delta) by (unfold MiB in Hd; lia).
  destruct (span_count_bounds delta s Hd Hs) as (H2 & _ & _).
  destruct (span_count_inv delta s H0 Hs) as [Hfit Heq].
  pose proof (ceil_div_spec (float_of_Z delta) MiB ltac:(reflexivity)) as Hc.
  rewrite <- Heq in Hc.
  change (MiB / 2) with 524288. unfold MiB in *.
  change (1024 * 1024) with 1048576 in *.
  apply Z.div_le_lower_bound; [lia |].
  destruct (Z.lt_ge_cases delta (2 ^ 24)) as [Hsm | Hl].
  - rewrite (float_of_Z_small delta Hsm) in *. lia.
  - destruct (float_of_Z_large delta Hl)
      as (q & e & He & _ & HF & Hq & Herr).
    assert (Hp : 2 <= 2 ^ e).
    { change 2 with (2 ^ 1) at 1. apply Z.pow_le_mono_r; lia. }
    set (u := 2 ^ e) in *. set (F := float_of_Z delta) in *.
    change (2 ^ 23) with 8388608 in *. change (2 ^ 24) with 16777216 in *.
    nia.
Qed.

(** X7.  A growth of more than 1 MiB links [spans] new blocks directly
    behind the head, each of [delta / spans] bytes, which is between half
    a MiB and 1 MiB; the other blocks are left as they are and [free] is
    called on nothing.  The live total rises by [spans] such blocks, and by
    one more when the head had no handle. *)
Theorem grow_split_shape fuel head rest t r h :
  is_size_t t -> is_size_t r -> MiB < r - t < SPAN_DOMAIN ->
  exists spans head' news h',
    span_count (r - t) = Some spans /\
    reallocMemory (S (S fuel)) (head :: rest) t r h
      = Done (head' :: news ++ rest, h') /\
    Z.of_nat (length news) = spans /\
    Forall (fun b => sz b = (r - t) / spans /\ mem b <> None) news /\
    MiB / 2 <= (r - t) / spans <= MiB /\
    node head' = node head /\
    (is_live head = true -> head' = head) /\
    (is_live head = false ->
     sz head' = (r - t) / spans /\ mem head' <> None) /\
    freed h' = freed h /\
    live_total (head' :: news ++ rest)
      = live_total (head :: rest)
        + (spans + (if is_live head then 0 else 1)) * ((r - t) / spans).
Proof.
  intros Ht Hr Hd.
  destruct (span_count_in_domain (r - t) Hd) as (s & Hs & _ & Hs2 & Hsub).
  destruct (reallocMemory_grow_split fuel (head :: rest) t r h Ht Hr Hd)
    as (s' & Hs' & Heq).
  assert (s' = s) by congruence. subst s'.
  pose proof (span_size_lower (r - t) s (proj1 Hd) Hs) as Hlow.
  destruct (grow_loop_shape ((r - t) / s) t (t + (r - t) / s) (Z.to_nat s)
              head rest (enter t r h))
    as (head' & news & h' & Hrun & Hlen & Hall & Hnode & Hsame & Hfill
        & Hfr & Hlive).
  exists s, head', news, h'.
  split; [exact Hs |].
  split; [rewrite Heq; exact Hrun |].
  split; [rewrite Hlen; lia |].
  split; [exact Hall |].
  split; [lia |].
  split; [exact Hnode |].
  split; [intros Hl; apply Hsame; left; exact Hl |].
  split; [intros Hl; apply Hfill; [exact Hl | lia] |].
  split; [rewrite Hfr; apply freed_enter |].
  rewrite Hlive. rewrite Z2Nat.id by lia.
  destruct (Z.to_nat s) eqn:En; [lia |].
  destruct (is_live head); lia.
Qed.

(** ** The ceiling *)

Lemma dealloc_walk_capped blocks :
  forall prev delta h,
    0 <= delta -> capped (blocks, h) ->
    capped (dealloc_walk prev blocks delta h).
Proof.
  induction blocks as [| b rest IH]; intros prev delta h Hd [Hsz Hlog];
    cbn [fst snd] in *.
  - split; [constructor | exact Hlog].
  - cbn [dealloc_walk].
    destruct (Z.eqb_spec delta 0) as [-> | Hne]; [split; assumption |].
    inversion Hsz as [| ? ? Hb Hrest]; subst.
    pose proof (wrap_size_range (delta - sz b)) as Hr.
    destruct (mem b) as [p |] eqn:Hm.
    + destruct (Z.leb_spec (sz b) delta) as [Hle | Hgt].
      * assert (Hlog1 : forall h1, (forall e, In e (log h1) ->
                   In e (log h) \/ exists q, e = EvFree q) ->
                 capped (rest, h1)).
        { intros h1 Hsub. split; [exact Hrest |]. cbn [snd].
          intros q n Hin. destruct (Hsub _ Hin) as [Ho | [q' Ho]];
            [exact (Hlog q n Ho) | discriminate]. }
        destruct prev.
        -- specialize (IH false (wrap_size (delta - sz b)) (free p h)
                         ltac:(size_lia)).
           destruct (dealloc_walk false rest _ (free p h)) as [l h2].
           destruct IH as [IH1 IH2].
           { apply Hlog1. intros e [<- | He]; [right; eauto | left; exact He]. }
           cbn [fst snd] in *. split; [| exact IH2].
           constructor; [cbn [sz]; unfold MiB; lia | exact IH1].
        -- apply IH; [size_lia |]. apply Hlog1.
           intros e [<- | [<- | He]]; [right; eauto | right; eauto | left; exact He].
      * assert (Hw : wrap_size (sz b - delta) = sz b - delta).
        { apply wrap_size_id. unfold is_size_t, SIZE_MAX_succ, MiB in *.
          change (2 ^ 64) with 18446744073709551616. lia. }
        rewrite Hw. cbn [malloc fst snd log free]. split.
        -- constructor; [cbn [sz]; lia | exact Hrest].
        -- intros q n [E | [E | Hin]];
             [injection E as _ <-; lia | discriminate | exact (Hlog q n Hin)].
    + specialize (IH false delta h Hd (conj Hrest Hlog)).
      destruct (dealloc_walk false rest delta h) as [l h2].
      destruct IH as [IH1 IH2]. cbn [fst snd] in *.
      split; [constructor; assumption | exact IH2].
Qed.

Lemma step_capped s s' : shaper_step s s' -> capped s -> capped s'.
Proof.
  intros Hstep Hc.
  destruct Hstep as [l t r h | l d h s' Hd Hg | l d h Hd].
  - destruct Hc as [Hsz Hlog]. split; [exact Hsz |]. cbn [snd enter log].
    intros p n [E | Hin]; [discriminate | exact (Hlog p n Hin)].
  - destruct Hc as [Hsz Hlog]. cbn [fst snd] in *.
    destruct l as [| b rest]; [discriminate |].
    rewrite grow_span_cons in Hg. injection Hg as <-.
    inversion Hsz as [| ? ? Hb Hrest]; subst.
    assert (H24 : sizeof_memoryBlock <= MiB) by (unfold MiB; discriminate).
    destruct (mem b); cbn [fst snd app log]; split;
      repeat (apply Forall_cons; [cbn [sz]; lia || assumption |]);
      try exact Hrest;
      intros q n Hin; cbn in Hin;
      repeat (destruct Hin as [E | Hin];
              [injection E as _ <-; lia |]);
      exact (Hlog q n Hin).
  - apply dealloc_walk_capped; [lia | exact Hc].
Qed.

(** X8.  Through every sequence of calls the ceiling holds: no block is
    ever larger than 1 MiB and no call of [malloc] ever asks for more,
    provided this was so before; and the calls return within the domain of
    the span count. *)
Theorem chunk_ceiling_kept fuel cs l h :
  Forall size_args cs ->
  Forall (fun b => 0 <= sz b <= MiB) l ->
  (forall p n, In (EvMalloc p n) (log h) -> n <= MiB) ->
  (forall l' h',
     run_calls fuel cs l h = Done (l', h') ->
     Forall (fun b => 0 <= sz b <= MiB) l' /\
     (forall p n, In (EvMalloc p n) (log h') -> n <= MiB)) /\
  (Forall call_ok cs -> l <> [] ->
   exists s', run_calls (S (S fuel)) cs l h = Done s').
Proof.
  intros Hcs Hsz Hlog. split.
  - intros l' h' Hrun.
    pose proof (run_calls_done_reaches fuel cs Hcs _ _ _ Hrun) as Hre.
    exact (reaches_invariant capped step_capped _ _ Hre (conj Hsz Hlog)).
  - intros Hok Hl.
    destruct (run_calls_reaches fuel cs Hok l h Hl) as (s' & Hrun & _).
    exists s'. exact Hrun.
Qed.

(** ** The addresses handed out *)

Lemma occ_seq_S x b :
  occ x (seq 0 (S b)) = (occ x (seq 0 b) + (if Nat.eq_dec b x then 1 else 0))%nat.
Proof.
  rewrite seq_S, occ_app, occ_cons, occ_nil.
  change (0 + b)%nat with b. lia.
Qed.

Lemma heap_exact_balanced s : heap_exact s <-> balanced s.
Proof.
  unfold heap_exact, balanced. rewrite (Permutation_count_occ Nat.eq_dec).
  split; intros H x; specialize (H x); fold (occ x (pointers (fst s) ++ freed (snd s))) in *;
    fold (occ x (seq 0 (brk (snd s)))) in *; rewrite occ_app in *; exact H.
Qed.

Lemma freed_mk_malloc b p n es :
  freed (mkHeap b (EvMalloc p n :: es)) = freed_of (rev es).
Proof. unfold freed, history. cbn [log]. apply freed_of_rev_malloc. Qed.

Lemma freed_mk_free b p es :
  freed (mkHeap b (EvFree p :: es)) = freed_of (rev es) ++ [p].
Proof. unfold freed, history. cbn. rewrite freed_of_app. reflexivity. Qed.

(** What the walk moves from the list to the freed addresses, and what it
    takes fresh. *)
Lemma dealloc_walk_balance blocks :
  forall prev delta h x,
    (occ x (pointers (fst (dealloc_walk prev blocks delta h)))
     + occ x (freed (snd (dealloc_walk prev blocks delta h)))
     + occ x (seq 0 (brk h)))%nat
    = (occ x (pointers blocks) + occ x (freed h)
       + occ x (seq 0 (brk (snd (dealloc_walk prev blocks delta h)))))%nat.
Proof.
  induction blocks as [| b rest IH]; intros prev delta h x.
  - cbn. lia.
  - cbn [dealloc_walk].
    destruct (delta =? 0); [cbn [fst snd]; lia |].
    cbn [pointers].
    destruct (mem b) as [p |] eqn:Hm.
    + destruct (sz b <=? delta).
      * destruct prev.
        -- specialize (IH false (wrap_size (delta - sz b)) (free p h) x).
           destruct (dealloc_walk false rest _ (free p h)) as [l h2].
           cbn [fst snd pointers mem node brk free] in *.
           rewrite freed_free, occ_app in IH.
           rewrite !occ_cons in *. rewrite occ_nil in IH. lia.
        -- specialize (IH false (wrap_size (delta - sz b))
                         (free (node b) (free p h)) x).
           cbn [brk free] in IH.
           rewrite !freed_free, !occ_app in IH.
           rewrite !occ_cons in *. rewrite occ_nil in IH. lia.
      * cbn [malloc fst snd pointers mem node brk free].
        rewrite freed_mk_malloc.
        change (freed_of (rev (log (free p h)))) with (freed (free p h)).
        rewrite freed_free, occ_app, occ_seq_S.
        rewrite !occ_cons, occ_nil. lia.
    + specialize (IH false delta h x).
      destruct (dealloc_walk false rest delta h) as [l h2].
      cbn [fst snd pointers] in *. rewrite Hm.
      rewrite !occ_cons in *. lia.
Qed.

Lemma step_balanced s s' : shaper_step s s' -> balanced s -> balanced s'.
Proof.
  intros Hstep Hb x. specialize (Hb x).
  destruct Hstep as [l t r h | l d h s' Hd Hg | l d h Hd]; cbn [fst snd] in *.
  - rewrite freed_enter. exact Hb.
  - destruct l as [| b rest]; [discriminate |].
    pose proof (freed_grow_span _ _ _ _ Hg) as Hfr.
    rewrite grow_span_cons in Hg. injection Hg as <-.
    rewrite Hfr. cbn [pointers] in Hb.
    destruct (mem b) as [p |] eqn:Hm;
      cbn [fst snd app pointers mem node brk]; rewrite ?Hm;
      rewrite !occ_seq_S, !occ_cons in *; lia.
  - pose proof (dealloc_walk_balance l true d h x) as H.
    unfold ledger in *. lia.
Qed.

Lemma balanced_no_reuse s :
  balanced s ->
  NoDup (pointers (fst s)) /\ NoDup (freed (snd s)) /\
  (forall p, In p (pointers (fst s)) -> ~ In p (freed (snd s))) /\
  (forall p, (p < brk (snd s))%nat ->
             In p (pointers (fst s)) \/ In p (freed (snd s))).
Proof.
  intros Hb.
  assert (Hle : forall x, (occ x (seq 0 (brk (snd s))) <= 1)%nat).
  { intros x. apply (proj1 (NoDup_count_occ Nat.eq_dec _)), seq_NoDup. }
  assert (Hpos : forall x l, In x l <-> (occ x l > 0)%nat).
  { intros x l. apply count_occ_In. }
  split; [| split; [| split]].
  - apply (NoDup_count_occ Nat.eq_dec). intros x.
    specialize (Hb x). specialize (Hle x). unfold occ in *. lia.
  - apply (NoDup_count_occ Nat.eq_dec). intros x.
    specialize (Hb x). specialize (Hle x). unfold occ in *. lia.
  - intros p H1 H2. apply Hpos in H1. apply Hpos in H2.
    specialize (Hb p). specialize (Hle p). lia.
  - intros p Hp.
    assert (Hin : In p (seq 0 (brk (snd s)))) by (apply in_seq; lia).
    apply Hpos in Hin. specialize (Hb p).
    destruct (Nat.eq_dec (occ p (pointers (fst s))) 0) as [E | E].
    + right. apply Hpos. lia.
    + left. apply Hpos. lia.
Qed.

(** X9.  Through every sequence of calls the list owns exactly the
    addresses that are still allocated: the addresses it holds and the
    addresses passed to [free] are together the addresses [malloc] handed
    out, each one once.  So [reallocMemory] frees nothing twice, keeps no
    address it has freed, and drops no address without freeing it. *)
Theorem heap_ownership_kept fuel cs l h :
  Forall size_args cs ->
  Permutation (pointers l ++ freed h) (seq 0 (brk h)) ->
  (forall l' h',
     run_calls fuel cs l h = Done (l', h') ->
     Permutation (pointers l' ++ freed h') (seq 0 (brk h')) /\
     NoDup (pointers l') /\ NoDup (freed h') /\
     (forall p, In p (pointers l') -> ~ In p (freed h')) /\
     (forall p, (p < brk h')%nat -> In p (pointers l') \/ In p (freed h'))) /\
  (Forall call_ok cs -> l <> [] ->
   exists s', run_calls (S (S fuel)) cs l h = Done s').
Proof.
  intros Hcs Hex. split.
  - intros l' h' Hrun.
    pose proof (run_calls_done_reaches fuel cs Hcs _ _ _ Hrun) as Hre.
    assert (Hb : balanced (l', h')).
    { apply (reaches_invariant balanced step_balanced _ _ Hre).
      apply (heap_exact_balanced (l, h)). exact Hex. }
    split; [apply (heap_exact_balanced (l', h')); exact Hb |].
    exact (balanced_no_reuse (l', h') Hb).
  - intros Hok Hl.
    destruct (run_calls_reaches fuel cs Hok l h Hl) as (s' & Hrun & _).
    exists s'. exact Hrun.
Qed.

(** ** The domain of the span count *)

Lemma float_of_Z_beyond_domain delta :
  SPAN_DOMAIN <= delta -> 2 ^ 52 <= float_of_Z delta.
Proof.
  unfold SPAN_DOMAIN. intros Hd.
  change (2 ^ 52 - 2 ^ 27) with 4503599493152768 in Hd.
  destruct (Z.lt_ge_cases delta (2 ^ 52)) as [Hlt | Hge].
  - assert (Hlog : Z.log2 delta = 51).
    { apply Z.log2_unique; [lia |].
      change (2 ^ 51) with 2251799813685248.
      change (2 ^ Z.succ 51) with 4503599627370496.
      change (2 ^ 52) with 4503599627370496 in Hlt. lia. }
    unfold float_of_Z. rewrite Hlog.
    destruct (Z.ltb_spec delta (2 ^ 24)) as [Hc | _];
      [change (2 ^ 24) with 16777216 in Hc; lia |].
    change (51 - 23) with 28. change (28 - 1) with 27.
    change (2 ^ 52) with 4503599627370496 in *.
    change (2 ^ 28) with 268435456. change (2 ^ 27) with 134217728.
    pose proof (Z.div_mod delta 268435456 ltac:(lia)) as Hdm.
    pose proof (Z.mod_pos_bound delta 268435456 ltac:(lia)) as Hr.
    assert (Hq : delta / 268435456 = 16777215) by lia.
    rewrite Hq. rewrite Hq in Hdm.
    destruct (Z.ltb_spec (delta mod 268435456) 134217728); [lia |].
    destruct (Z.ltb_spec 134217728 (delta mod 268435456)); [lia |].
    change (Z.even 16777215) with false. cbv iota. lia.
  - assert (H24 : 2 ^ 24 <= delta).
    { change (2 ^ 24) with 16777216. change (2 ^ 52) with 4503599627370496 in Hge.
      lia. }
    destruct (float_of_Z_large delta H24) as (q & e & He & Hlog & HF & Hq & _).
    assert (H52 : 52 <= Z.log2 delta).
    { apply Z.log2_le_pow2; [|exact Hge].
      change (2 ^ 52) with 4503599627370496 in Hge. lia. }
    rewrite HF.
    assert (Hpow : 2 ^ 52 <= 2 ^ 23 * 2 ^ e).
    { rewrite <- Z.pow_add_r by lia. apply Z.pow_le_mono_r; lia. }
    assert (0 < 2 ^ e) by (apply Z.pow_pos_nonneg; lia).
    change (2 ^ 23) with 8388608 in *. nia.
Qed.

(** The span count exists exactly below [SPAN_DOMAIN]. *)
Lemma span_count_none_iff delta :
  0 <= delta -> (span_count delta = None <-> SPAN_DOMAIN <= delta).
Proof.
  intros H0. split.
  - intros Hn. destruct (Z.lt_ge_cases delta SPAN_DOMAIN) as [Hlt | Hge];
      [| exact Hge].
    rewrite (span_count_defined delta H0
               (span_domain_fits delta (conj H0 Hlt))) in Hn.
    discriminate.
  - intros Hge. apply span_count_undefined.
    pose proof (float_of_Z_beyond_domain delta Hge) as HF.
    unfold UINT_MAX_succ, MiB. change (1024 * 1024) with 1048576.
    apply Z.div_le_lower_bound; [lia |].
    change (2 ^ 52) with 4503599627370496 in HF.
    change (2 ^ 32) with 4294967296. lia.
Qed.

(** X10.  A growth has a defined result exactly when [delta] is below
    [2^52 - 2^27]: from there on the quotient of line 92 no longer fits
    the [unsigned] of line 93, at whatever depth the call is run. *)
Theorem growth_defined_iff fuel memory t r h :
  memory <> [] -> is_size_t t -> is_size_t r -> t < r ->
  ((exists s', reallocMemory (S (S fuel)) memory t r h = Done s')
   <-> r - t < SPAN_DOMAIN) /\
  (SPAN_DOMAIN <= r - t ->
   reallocMemory (S fuel) memory t r h = Undefined).
Proof.
  intros Hl Ht Hr Hlt.
  assert (Hund : SPAN_DOMAIN <= r - t ->
                 forall n, reallocMemory (S n) memory t r h = Undefined).
  { intros Hge n. rewrite reallocMemory_S. cbv zeta.
    destruct (Z.ltb_spec t r); [| lia].
    rewrite wrap_size_id by size_lia.
    assert (Hbig : MiB < r - t).
    { unfold SPAN_DOMAIN, MiB in *.
      change (2 ^ 52 - 2 ^ 27) with 4503599493152768 in Hge. lia. }
    destruct (Z.ltb_spec MiB (r - t)); [| lia].
    rewrite (proj2 (span_count_none_iff (r - t) ltac:(lia)) Hge).
    reflexivity. }
  split; [split |].
  - intros [s' Hs].
    destruct (Z.lt_ge_cases (r - t) SPAN_DOMAIN) as [Hin | Hout];
      [exact Hin |].
    rewrite (Hund Hout) in Hs. discriminate.
  - intros Hin.
    destruct (reallocMemory_reaches fuel memory t r h
                (conj Ht (conj Hr Hin)) Hl) as (s' & Hs & _).
    exists s'. exact Hs.
  - intros Hout. apply Hund. exact Hout.
Qed.

(** ** What is left allocated at the end *)

Lemma occ_handles_single x b :
  occ x (pointers [b])
    = ((if Nat.eq_dec (node b) x then 1 else 0) + occ x (handles [b]))%nat.
Proof.
  cbn [pointers handles]. destruct (mem b); rewrite !occ_cons; reflexivity.
Qed.

(** The teardown on a list that owns the allocated addresses. *)
Lemma teardown_owned front last h :
  Permutation (pointers (front ++ [last]) ++ freed h) (seq 0 (brk h)) ->
  exists h',
    printGraph_teardown (front ++ [last]) h = Done h' /\
    brk h' = brk h /\
    (front = [] ->
     Permutation (freed h' ++ handles [last]) (seq 0 (brk h))) /\
    (forall head rest,
       front = head :: rest ->
       Permutation (freed h' ++ pointers [last])
         (node head :: seq 0 (brk h))).
Proof.
  intros Hex.
  apply (heap_exact_balanced (front ++ [last], h)) in Hex.
  unfold balanced in Hex. cbn [fst snd] in Hex.
  destruct (front ++ [last]) as [| hd tl] eqn:El;
    [destruct front; discriminate |].
  destruct (teardown_frees hd tl h) as (h' & Hrun & Hf).
  exists h'. split; [exact Hrun |].
  assert (Hbrk : brk h' = brk h).
  { unfold printGraph_teardown, destroyMemory in Hrun. injection Hrun as <-.
    cbn [brk free]. apply destroy_loop_brk. }
  split; [exact Hbrk |].
  rewrite <- El in Hf, Hex. rewrite removelast_last in Hf.
  split.
  - intros ->. cbn [app] in *. injection El as <- _.
    apply (Permutation_count_occ Nat.eq_dec). intros x. specialize (Hex x).
    fold (occ x (freed h' ++ handles [last])). fold (occ x (seq 0 (brk h))).
    rewrite Hf, !occ_app, occ_cons, occ_nil. cbn [flat_map]. rewrite occ_nil.
    rewrite occ_handles_single in Hex. lia.
  - intros head rest ->. cbn [app] in El. injection El as <- _.
    apply (Permutation_count_occ Nat.eq_dec). intros x. specialize (Hex x).
    fold (occ x (freed h' ++ pointers [last])).
    fold (occ x (node head :: seq 0 (brk h))).
    rewrite Hf, !occ_app, !occ_cons, occ_nil, occ_block_release.
    rewrite pointers_app, occ_app in Hex. lia.
Qed.

(** X11.  The teardown of [printGraph] on a list that owns the allocated
    addresses: with two blocks or more, every address is released except
    the node and the handle of the last block, and the head node is
    released once too often; with the head alone, only its handle stays
    allocated.  Nothing is allocated. *)
Theorem teardown_balance front last h :
  Permutation (pointers (front ++ [last]) ++ freed h) (seq 0 (brk h)) ->
  exists h',
    printGraph_teardown (front ++ [last]) h = Done h' /\
    brk h' = brk h /\
    (front = [] ->
     Permutation (freed h' ++ handles [last]) (seq 0 (brk h))) /\
    (forall head rest,
       front = head :: rest ->
       Permutation (freed h' ++ pointers [last])
         (node head :: seq 0 (brk h))).
Proof. exact (teardown_owned front last h). Qed.

Lemma chained_size_args targets :
  forall t, is_size_t t -> Forall is_size_t targets ->
            Forall size_args (chained t targets).
Proof.
  induction targets as [| m targets IH]; intros t Ht Hall; [constructor |].
  inversion Hall; subst. cbn [chained].
  constructor; [split; assumption | apply IH; assumption].
Qed.

Lemma fresh_heap_exact : heap_exact fresh.
Proof. unfold heap_exact. cbn. repeat constructor. Qed.

(** X12.  [printGraph] as a whole, for any targets: when the loop ends on
    a list of two blocks or more, the program ends with the node and the
    handle of the last block still allocated and every other address
    released, the head node (the first address handed out) twice; when it
    ends on the head alone, only a handle of the head can be left. *)
Theorem printGraph_memory_balance fuel targets l' h' :
  Forall is_size_t targets ->
  printGraph_loop fuel targets (fst fresh) 0 (snd fresh) = Done (l', h') ->
  exists h'',
    printGraph fuel targets = Done h'' /\
    brk h'' = brk h' /\
    (forall front last,
       l' = front ++ [last] -> front <> [] ->
       Permutation (freed h'' ++ pointers [last])
         (0%nat :: seq 0 (brk h''))) /\
    (forall b,
       l' = [b] -> Permutation (freed h'' ++ handles [b]) (seq 0 (brk h''))).
Proof.
  intros Hsz Hloop.
  assert (Hcs : Forall size_args (chained 0 targets)).
  { apply chained_size_args; [literal_lia | exact Hsz]. }
  pose proof Hloop as Hrun. rewrite printGraph_loop_chained in Hrun.
  pose proof (run_calls_done_reaches fuel _ Hcs _ _ _ Hrun) as Hre.
  assert (Hex : heap_exact (l', h')).
  { apply heap_exact_balanced.
    apply (reaches_invariant balanced step_balanced _ _ Hre).
    apply (heap_exact_balanced fresh). exact fresh_heap_exact. }
  assert (Hk : head_kept 0%nat [] (l', h')).
  { apply (reaches_head_kept _ _ _ _ Hre).
    split; [eexists _, _; split; reflexivity |].
    split; [apply (printGraph_init_separated empty_heap) | exact (fun H => H)]. }
  destruct Hk as ((hd & tl & Hl & Hn) & _ & _). cbn [fst] in Hl.
  assert (Hne : l' <> []) by (rewrite Hl; discriminate).
  destruct (exists_last Hne) as (front & last & El).
  unfold heap_exact in Hex. cbn [fst snd] in Hex. rewrite El in Hex.
  destruct (teardown_owned front last h' Hex)
    as (h'' & Htd & Hbrk & Hone & Hmany).
  exists h''.
  split.
  { unfold printGraph. change (printGraph_init empty_heap) with fresh.
    destruct fresh as [m0 h0] eqn:Ef. cbn [fst snd] in Hloop.
    rewrite Hloop, El. exact Htd. }
  split; [exact Hbrk |].
  rewrite Hbrk. split.
  - intros front' last' E Hf.
    rewrite El in E. apply app_inj_tail in E. destruct E as [-> ->].
    destruct front' as [| head rest]; [contradiction Hf; reflexivity |].
    rewrite El in Hl. cbn [app] in Hl. injection Hl as -> _.
    pose proof (Hmany hd rest eq_refl) as Hp. rewrite Hn in Hp. exact Hp.
  - intros b E. rewrite El in E.
    destruct front as [| f front'].
    + cbn in E. injection E as ->. apply Hone. reflexivity.
    + destruct front'; discriminate.
Qed.

(** ** What a shrink allocates *)

Lemma dealloc_walk_allocates blocks :
  forall prev delta h,
    (brk h <= brk (snd (dealloc_walk prev blocks delta h)) <= S (brk h))%nat /\
    (length (fst (dealloc_walk prev blocks delta h)) <= length blocks)%nat /\
    calls (snd (dealloc_walk prev blocks delta h)) = calls h.
Proof.
  assert (Hcf : forall p h, calls (free p h) = calls h).
  { intros p h. unfold calls, history. cbn. rewrite calls_of_app. cbn.
    apply app_nil_r. }
  induction blocks as [| b rest IH]; intros prev delta h.
  - cbn. repeat split; lia.
  - cbn [dealloc_walk].
    destruct (delta =? 0); [cbn [fst snd]; repeat split; lia |].
    destruct (mem b) as [p |].
    + destruct (sz b <=? delta).
      * destruct prev.
        -- specialize (IH false (wrap_size (delta - sz b)) (free p h)).
           destruct (dealloc_walk false rest _ (free p h)) as [l h2].
           cbn [fst snd brk free length] in *. rewrite Hcf in IH.
           repeat split; try lia. apply IH.
        -- specialize (IH false (wrap_size (delta - sz b))
                         (free (node b) (free p h))).
           cbn [brk free length] in *. rewrite !Hcf in IH.
           repeat split; try lia. apply IH.
      * cbn [malloc fst snd brk free length]. repeat split; try lia.
        unfold calls, history. cbn. rewrite !calls_of_app. cbn.
        rewrite !app_nil_r. reflexivity.
    + specialize (IH false delta h).
      destruct (dealloc_walk false rest delta h) as [l h2].
      cbn [fst snd length] in *. repeat split; try lia. apply IH.
Qed.

(** X13.  A shrink calls [malloc] at most once, links no new block and
    makes no recursive call. *)
Theorem shrink_allocates_at_most_once fuel l t r h :
  is_size_t t -> is_size_t r -> r < t ->
  exists l' h',
    reallocMemory (S fuel) l t r h = Done (l', h') /\
    (brk h <= brk h' <= S (brk h))%nat /\
    (length l' <= length l)%nat /\
    calls h' = calls h ++ [(t, r)].
Proof.
  intros Ht Hr Hlt.
  rewrite reallocMemory_shrink by assumption.
  pose proof (dealloc_walk_allocates l true (t - r) (enter t r h))
    as (Hb & Hlen & Hc).
  destruct (dealloc_walk true l (t - r) (enter t r h)) as [l' h'].
  exists l', h'. cbn [fst snd brk enter] in *.
  split; [reflexivity |]. split; [exact Hb |]. split; [exact Hlen |].
  rewrite Hc. apply calls_enter.
Qed.

(** ** Growing and shrinking back *)

(** X14.  Growing by [delta], at most 1 MiB, and shrinking by [delta]
    again brings the live total back to what it was when the head had a
    handle, and leaves it [delta] bytes higher when the head had none. *)
Theorem grow_then_shrink_live_total fuel head rest t r h :
  sizes_ok (head :: rest) -> is_size_t t -> is_size_t r ->
  0 < r - t <= MiB ->
  exists l1 h1 l2 h2,
    reallocMemory (S fuel) (head :: rest) t r h = Done (l1, h1) /\
    reallocMemory (S fuel) l1 r t h1 = Done (l2, h2) /\
    live_total l2
      = live_total (head :: rest) + (if is_live head then 0 else r - t).
Proof.
  intros Hok Ht Hr Hd.
  rewrite reallocMemory_grow_one by assumption.
  destruct (grow_loop_shape (r - t) t r 1 head rest h)
    as (head' & news & h1 & Hrun & Hlen & Hall & Hnode & Hsame & Hfill
        & _ & Hlive).
  cbn [for_loop fst snd] in Hrun.
  destruct (grow_span (head :: rest) (r - t) (enter t r h)) as [s1 | |];
    try discriminate.
  injection Hrun as ->.
  exists (head' :: news ++ rest), h1.
  assert (Hok1 : sizes_ok (head' :: news ++ rest)).
  { assert (Hdr : is_size_t (r - t)).
    { unfold is_size_t, SIZE_MAX_succ, MiB in *.
      change (2 ^ 64) with 18446744073709551616. lia. }
    apply sizes_ok_cons in Hok. destruct Hok as [Hh Hrest].
    apply sizes_ok_cons. split.
    - destruct (is_live head) eqn:Hl.
      + rewrite (Hsame (or_introl eq_refl)). exact Hh.
      + destruct (Hfill eq_refl ltac:(discriminate)) as [-> _]. exact Hdr.
    - unfold sizes_ok. apply Forall_app. split; [| exact Hrest].
      revert Hall. apply Forall_impl. intros b [-> _]. exact Hdr. }
  pose proof (live_total_nonneg _ Hok) as Hnn.
  assert (Hge : r - t <= live_total (head' :: news ++ rest)).
  { rewrite Hlive. change (Z.of_nat 1) with 1. destruct (is_live head); lia. }
  rewrite reallocMemory_shrink by (try assumption; lia).
  pose proof (dealloc_walk_live _ Hok1 true (r - t) (enter r t h1)
                ltac:(lia) ltac:(size_lia)) as Hw.
  destruct (dealloc_walk true (head' :: news ++ rest) (r - t) (enter r t h1))
    as [l2 h2].
  exists l2, h2. split; [reflexivity |]. split; [reflexivity |].
  cbn [fst] in Hw. rewrite Hw, Hlive. change (Z.of_nat 1) with 1.
  destruct (is_live head); lia.
Qed.

Lemma sample_three_separated : separated sample_three sample_heap.
Proof.
  split.
  - repeat (apply NoDup_cons; [cbn; lia |]). apply NoDup_nil.
  - repeat (apply Forall_cons; [cbn; lia |]). apply Forall_nil.
Qed.

Lemma sample_three_sizes_ok : sizes_ok sample_three.
Proof. repeat constructor; literal_lia. Qed.

Lemma sample_three_heap_exact :
  Permutation (pointers sample_three ++ freed sample_heap)
    (seq 0 (brk sample_heap)).
Proof. apply Permutation_refl. Qed.

Lemma longer_calls_ok : Forall call_ok ((0, 5) :: (5, 8) :: sample_calls).
Proof. repeat constructor; literal_lia. Qed.

Lemma longer_calls_size_args :
  Forall size_args ((0, 5) :: (5, 8) :: sample_calls).
Proof. repeat constructor; literal_lia. Qed.

(** Teardown of [sample_three]. *)
Lemma teardown_frees_head_twice_witness :
  separated sample_three sample_heap /\
  ~ In 0%nat (freed sample_heap) /\
  exists h',
    printGraph_teardown sample_three sample_heap = Done h' /\
    occ 0%nat (freed h') = 2%nat.
Proof.
  assert (Hfr : ~ In 0%nat (freed sample_heap)) by (intros []).
  split; [exact sample_three_separated |]. split; [exact Hfr |].
  exact (teardown_frees_head_twice (mkBlock 0 3 (Some 1%nat))
           (mkBlock 2 5 (Some 3%nat)) [mkBlock 4 2 (Some 5%nat)] sample_heap
           sample_three_separated Hfr).
Defined.

(** Teardown of [sample_three], seen from its last block. *)
Lemma teardown_leaks_last_block_witness :
  separated ([mkBlock 0 3 (Some 1%nat); mkBlock 2 5 (Some 3%nat)]
               ++ [mkBlock 4 2 (Some 5%nat)]) sample_heap /\
  exists h',
    printGraph_teardown
      ([mkBlock 0 3 (Some 1%nat); mkBlock 2 5 (Some 3%nat)]
         ++ [mkBlock 4 2 (Some 5%nat)]) sample_heap = Done h' /\
    ~ In 5%nat (freed h') /\ ~ In 4%nat (freed h').
Proof.
  split; [exact sample_three_separated |].
  destruct (teardown_leaks_last_block
              [mkBlock 0 3 (Some 1%nat); mkBlock 2 5 (Some 3%nat)]
              (mkBlock 4 2 (Some 5%nat)) sample_heap sample_three_separated)
    as (h' & Hrun & Hh & Hn).
  exists h'. split; [exact Hrun |]. split.
  - intros Hin. exact (Hh 5%nat eq_refl Hin).
  - intros Hin. exact (Hn ltac:(discriminate) Hin).
Defined.

(** [sample_three] holds 10 bytes and is asked for 12. *)
Lemma shrink_live_total_witness :
  sizes_ok sample_three /\ is_size_t 20 /\ is_size_t 8 /\ 8 < 20 /\
  exists l' h',
    reallocMemory 1 sample_three 20 8 sample_heap = Done (l', h') /\
    live_total l' = Z.max 0 (live_total sample_three - (20 - 8)).
Proof.
  assert (Ht : is_size_t 20) by literal_lia.
  assert (Hr : is_size_t 8) by literal_lia.
  assert (Hlt : 8 < 20) by lia.
  split; [exact sample_three_sizes_ok |].
  repeat (split; [assumption |]).
  exact (shrink_live_total 0 sample_three 20 8 sample_heap
           sample_three_sizes_ok Ht Hr Hlt).
Defined.

(** The first two blocks of [sample_three] hold the 4 bytes to give back. *)
Lemma shrink_leaves_tail_untouched_witness :
  sizes_ok [mkBlock 0 3 (Some 1%nat); mkBlock 2 5 (Some 3%nat)] /\
  is_size_t 10 /\ is_size_t 6 /\ 6 < 10 /\
  10 - 6 <= live_total [mkBlock 0 3 (Some 1%nat); mkBlock 2 5 (Some 3%nat)] /\
  exists l1 h',
    reallocMemory 1 [mkBlock 0 3 (Some 1%nat); mkBlock 2 5 (Some 3%nat)]
      10 6 sample_heap = Done (l1, h') /\
    reallocMemory 1
      ([mkBlock 0 3 (Some 1%nat); mkBlock 2 5 (Some 3%nat)]
         ++ [mkBlock 4 2 (Some 5%nat)]) 10 6 sample_heap
      = Done (l1 ++ [mkBlock 4 2 (Some 5%nat)], h').
Proof.
  assert (Hok : sizes_ok [mkBlock 0 3 (Some 1%nat); mkBlock 2 5 (Some 3%nat)])
    by (repeat constructor; literal_lia).
  assert (Ht : is_size_t 10) by literal_lia.
  assert (Hr : is_size_t 6) by literal_lia.
  assert (Hlt : 6 < 10) by lia.
  assert (Hd : 10 - 6 <= live_total
                 [mkBlock 0 3 (Some 1%nat); mkBlock 2 5 (Some 3%nat)])
    by (cbn; lia).
  repeat (split; [assumption |]).
  exact (shrink_leaves_tail_untouched 0 _ [mkBlock 4 2 (Some 5%nat)]
           10 6 sample_heap Hok Ht Hr Hlt Hd).
Defined.

(** The first growth of the fresh list, by 5 bytes. *)
Lemma grow_one_span_witness :
  is_size_t 0 /\ is_size_t 5 /\ 0 < 5 - 0 <= MiB /\
  exists head' new h',
    reallocMemory 1 (mkBlock 0 0 None :: []) 0 5 (snd fresh)
      = Done (head' :: new :: [], h') /\
    sz new = 5 - 0 /\ mem new <> None /\
    node head' = 0%nat /\
    sz head' = 5 - 0 /\ mem head' <> None /\
    freed h' = freed (snd fresh) /\
    live_total (head' :: new :: []) = 0 + 2 * (5 - 0).
Proof.
  assert (Ht : is_size_t 0) by literal_lia.
  assert (Hr : is_size_t 5) by literal_lia.
  assert (Hd : 0 < 5 - 0 <= MiB) by literal_lia.
  repeat (split; [assumption |]).
  destruct (grow_one_span 0 (mkBlock 0 0 None) [] 0 5 (snd fresh) Ht Hr Hd)
    as (head' & new & h' & Hrun & Hsz & Hm & Hn & _ & Hfill & Hfr & Hlive).
  destruct (Hfill eq_refl) as [Hs Hmem].
  exists head', new, h'.
  repeat (split; [assumption |]). exact Hlive.
Defined.

(** The growth of the fresh list by 2.5 MiB. *)
Lemma grow_split_shape_witness :
  is_size_t 0 /\ is_size_t 2621440 /\ MiB < 2621440 - 0 < SPAN_DOMAIN /\
  exists spans head' news h',
    span_count (2621440 - 0) = Some spans /\
    reallocMemory 2 (mkBlock 0 0 None :: []) 0 2621440 (snd fresh)
      = Done (head' :: news ++ [], h') /\
    Z.of_nat (length news) = spans /\
    Forall (fun b => sz b = (2621440 - 0) / spans /\ mem b <> None) news /\
    MiB / 2 <= (2621440 - 0) / spans <= MiB /\
    node head' = 0%nat /\
    (sz head' = (2621440 - 0) / spans /\ mem head' <> None) /\
    freed h' = freed (snd fresh) /\
    live_total (head' :: news ++ [])
      = 0 + (spans + 1) * ((2621440 - 0) / spans).
Proof.
  assert (Ht : is_size_t 0) by literal_lia.
  assert (Hr : is_size_t 2621440) by literal_lia.
  assert (Hd : MiB < 2621440 - 0 < SPAN_DOMAIN) by literal_lia.
  repeat (split; [assumption |]).
  destruct (grow_split_shape 0 (mkBlock 0 0 None) [] 0 2621440 (snd fresh)
              Ht Hr Hd)
    as (spans & head' & news & h' & Hs & Hrun & Hlen & Hall & Hb & Hn & _
        & Hfill & Hfr & Hlive).
  exists spans, head', news, h'.
  repeat (split; [assumption |]).
  split; [exact (Hfill eq_refl) |].
  split; [exact Hfr | exact Hlive].
Defined.

(** Five chained calls on the fresh list. *)
Lemma chunk_ceiling_kept_witness :
  Forall size_args ((0, 5) :: (5, 8) :: sample_calls) /\
  Forall (fun b => 0 <= sz b <= MiB) (fst fresh) /\
  (forall p n, In (EvMalloc p n) (log (snd fresh)) -> n <= MiB) /\
  Forall call_ok ((0, 5) :: (5, 8) :: sample_calls) /\
  exists l' h',
    run_calls 2 ((0, 5) :: (5, 8) :: sample_calls) (fst fresh) (snd fresh)
      = Done (l', h') /\
    Forall (fun b => 0 <= sz b <= MiB) l' /\
    (forall p n, In (EvMalloc p n) (log h') -> n <= MiB).
Proof.
  assert (Hsz : Forall (fun b => 0 <= sz b <= MiB) (fst fresh))
    by (repeat constructor; literal_lia).
  assert (Hlog : forall p n, In (EvMalloc p n) (log (snd fresh)) -> n <= MiB).
  { intros p n [E | []]. injection E as _ <-. vm_compute. discriminate. }
  split; [exact longer_calls_size_args |].
  repeat (split; [assumption |]).
  split; [exact longer_calls_ok |].
  destruct (chunk_ceiling_kept 0 _ _ _ longer_calls_size_args Hsz Hlog)
    as (_ & Hdone).
  destruct (chunk_ceiling_kept 2 _ _ _ longer_calls_size_args Hsz Hlog)
    as (Hinv & _).
  destruct (Hdone longer_calls_ok ltac:(discriminate)) as ([l' h'] & Hrun).
  exists l', h'. split; [exact Hrun | exact (Hinv l' h' Hrun)].
Defined.

(** Five chained calls on the fresh list. *)
Lemma heap_ownership_kept_witness :
  Forall size_args ((0, 5) :: (5, 8) :: sample_calls) /\
  Permutation (pointers (fst fresh) ++ freed (snd fresh))
    (seq 0 (brk (snd fresh))) /\
  Forall call_ok ((0, 5) :: (5, 8) :: sample_calls) /\
  exists l' h',
    run_calls 2 ((0, 5) :: (5, 8) :: sample_calls) (fst fresh) (snd fresh)
      = Done (l', h') /\
    Permutation (pointers l' ++ freed h') (seq 0 (brk h')) /\
    NoDup (pointers l') /\ NoDup (freed h') /\
    (forall p, In p (pointers l') -> ~ In p (freed h')) /\
    (forall p, (p < brk h')%nat -> In p (pointers l') \/ In p (freed h')).
Proof.
  split; [exact longer_calls_size_args |].
  split; [exact fresh_heap_exact |].
  split; [exact longer_calls_ok |].
  destruct (heap_ownership_kept 0 _ _ _ longer_calls_size_args fresh_heap_exact)
    as (_ & Hdone).
  destruct (heap_ownership_kept 2 _ _ _ longer_calls_size_args fresh_heap_exact)
    as (Hinv & _).
  destruct (Hdone longer_calls_ok ltac:(discriminate)) as ([l' h'] & Hrun).
  exists l', h'. split; [exact Hrun | exact (Hinv l' h' Hrun)].
Defined.

(** A growth of 5 bytes is within the domain. *)
Lemma growth_defined_iff_witness :
  fst fresh <> [] /\ is_size_t 0 /\ is_size_t 5 /\ 0 < 5 /\
  ((exists s', reallocMemory 2 (fst fresh) 0 5 (snd fresh) = Done s')
   <-> 5 - 0 < SPAN_DOMAIN) /\
  (SPAN_DOMAIN <= 5 - 0 ->
   reallocMemory 1 (fst fresh) 0 5 (snd fresh) = Undefined).
Proof.
  assert (Hl : fst fresh <> []) by discriminate.
  assert (Ht : is_size_t 0) by literal_lia.
  assert (Hr : is_size_t 5) by literal_lia.
  assert (Hlt : 0 < 5) by lia.
  repeat (split; [assumption |]).
  exact (growth_defined_iff 0 (fst fresh) 0 5 (snd fresh) Hl Ht Hr Hlt).
Defined.

(** Teardown of [sample_three], which owns the six addresses handed out. *)
Lemma teardown_balance_witness :
  Permutation
    (pointers ([mkBlock 0 3 (Some 1%nat); mkBlock 2 5 (Some 3%nat)]
                 ++ [mkBlock 4 2 (Some 5%nat)]) ++ freed sample_heap)
    (seq 0 (brk sample_heap)) /\
  exists h',
    printGraph_teardown
      ([mkBlock 0 3 (Some 1%nat); mkBlock 2 5 (Some 3%nat)]
         ++ [mkBlock 4 2 (Some 5%nat)]) sample_heap = Done h' /\
    brk h' = brk sample_heap /\
    Permutation (freed h' ++ pointers [mkBlock 4 2 (Some 5%nat)])
      (0%nat :: seq 0 (brk sample_heap)).
Proof.
  split; [exact sample_three_heap_exact |].
  destruct (teardown_balance
              [mkBlock 0 3 (Some 1%nat); mkBlock 2 5 (Some 3%nat)]
              (mkBlock 4 2 (Some 5%nat)) sample_heap sample_three_heap_exact)
    as (h' & Hrun & Hbrk & _ & Hmany).
  exists h'. split; [exact Hrun |]. split; [exact Hbrk |].
  exact (Hmany _ _ eq_refl).
Defined.

(** [printGraph] on the targets 5 and 3. *)
Lemma printGraph_memory_balance_witness :
  Forall is_size_t [5; 3] /\
  exists l' h' h'',
    printGraph_loop 2 [5; 3] (fst fresh) 0 (snd fresh) = Done (l', h') /\
    printGraph 2 [5; 3] = Done h'' /\
    brk h'' = brk h' /\
    (forall front last,
       l' = front ++ [last] -> front <> [] ->
       Permutation (freed h'' ++ pointers [last])
         (0%nat :: seq 0 (brk h''))) /\
    (forall b,
       l' = [b] -> Permutation (freed h'' ++ handles [b]) (seq 0 (brk h''))).
Proof.
  assert (Hsz : Forall is_size_t [5; 3]) by (repeat constructor; literal_lia).
  split; [exact Hsz |].
  assert (Hloop : printGraph_loop 2 [5; 3] (fst fresh) 0 (snd fresh)
                  = Done ([mkBlock 0 3 (Some 4%nat); mkBlock 2 5 (Some 3%nat)],
                          mkHeap 5
                            [EvMalloc 4 3; EvFree 1; EvCall 5 3; EvMalloc 3 5;
                             EvMalloc 2 24; EvMalloc 1 5; EvCall 0 5;
                             EvMalloc 0 24])) by reflexivity.
  destruct (printGraph_memory_balance 2 [5; 3] _ _ Hsz Hloop)
    as (h'' & Hrun & Hrest).
  eexists _, _, h''. split; [exact Hloop |]. split; [exact Hrun | exact Hrest].
Defined.

(** [sample_three] shrunk from 10 bytes to 6. *)
Lemma shrink_allocates_at_most_once_witness :
  is_size_t 10 /\ is_size_t 6 /\ 6 < 10 /\
  exists l' h',
    reallocMemory 1 sample_three 10 6 sample_heap = Done (l', h') /\
    (brk sample_heap <= brk h' <= S (brk sample_heap))%nat /\
    (length l' <= length sample_three)%nat /\
    calls h' = calls sample_heap ++ [(10, 6)].
Proof.
  assert (Ht : is_size_t 10) by literal_lia.
  assert (Hr : is_size_t 6) by literal_lia.
  assert (Hlt : 6 < 10) by lia.
  repeat (split; [assumption |]).
  exact (shrink_allocates_at_most_once 0 sample_three 10 6 sample_heap
           Ht Hr Hlt).
Defined.

(** The fresh list grown by 5 bytes and shrunk by 5 again. *)
Lemma grow_then_shrink_live_total_witness :
  sizes_ok (mkBlock 0 0 None :: []) /\ is_size_t 0 /\ is_size_t 5 /\
  0 < 5 - 0 <= MiB /\
  exists l1 h1 l2 h2,
    reallocMemory 1 (mkBlock 0 0 None :: []) 0 5 (snd fresh) = Done (l1, h1) /\
    reallocMemory 1 l1 5 0 h1 = Done (l2, h2) /\
    live_total l2 = 0 + (5 - 0).
Proof.
  assert (Hok : sizes_ok (mkBlock 0 0 None :: []))
    by (repeat constructor; literal_lia).
  assert (Ht : is_size_t 0) by literal_lia.
  assert (Hr : is_size_t 5) by literal_lia.
  assert (Hd : 0 < 5 - 0 <= MiB) by literal_lia.
  repeat (split; [assumption |]).
  exact (grow_then_shrink_live_total 0 (mkBlock 0 0 None) [] 0 5 (snd fresh)
           Hok Ht Hr Hd).
Defined.
